(** * Whale tracker: classifier, deduplication ledger, position store, poll loop

    A shallow embedding of the TypeScript sources of the wallet tracker and
    the properties of its specification, stated over that embedding.

    Conventions of the embedding.
    - A JavaScript [number] that carries money, a token amount or a price is
      an IEEE-754 binary64 value: Rocq's primitive [float], with the same
      rounding, infinities and NaN as the JavaScript operators.
    - A timestamp is an integer number of seconds since the epoch ([Z]), as
      the transaction source delivers it; [Math.floor (x / k)] on such
      integers is floor division [x / k] on [Z].
    - A string is a [string]; [toLowerCase] folds the ASCII letters, which is
      all that a base58 address can contain.
    - A field read through [?.] may be absent: [option string].
    - The Supabase tables are lists of rows in insertion order, with the
      constraints of [schema.sql] (primary key on
      [processed_signatures.signature], [UNIQUE] on
      [positions.buy_signature]) enforced on insert.  The rounding that the
      NUMERIC columns apply on storage is outside the model: a row holds the
      value that was written.
    - An [async] function is a state transformer over the [World] that may
      complete normally or abruptly (a thrown error); effects performed
      before a throw persist. *)

From Stdlib Require Import ZArith Floats Ascii String.
From stdpp Require Import base option list strings gmap pretty.

#[local] Set Warnings "-inexact-float".
#[local] Open Scope Z_scope.

(** ** Strings and JavaScript values *)

Definition lower_ascii (c : ascii) : ascii :=
  let n := nat_of_ascii c in
  if (Nat.leb 65 n && Nat.leb n 90)%bool then ascii_of_nat (n + 32) else c.

Fixpoint toLowerCase (s : string) : string :=
  match s with
  | EmptyString => EmptyString
  | String c rest => String (lower_ascii c) (toLowerCase rest)
  end.

(** [account?.toLowerCase() === walletAddress.toLowerCase()]: an absent
    account yields [undefined], which is never [===] to a string. *)
Definition sameAccount (account : option string) (walletAddress : string) : bool :=
  match account with
  | Some a => String.eqb (toLowerCase a) (toLowerCase walletAddress)
  | None => false
  end.

(** ** Data shapes ([types/index.ts]); fields the tracker never reads are
    left out. *)

Record HeliusTokenTransfer := mkTokenTransfer {
  fromUserAccount : option string;
  toUserAccount : option string;
  mint : string;
  tokenAmount : float
}.

Record HeliusNativeTransfer := mkNativeTransfer {
  nativeFromUserAccount : option string;
  nativeToUserAccount : option string;
  nativeAmount : float
}.

(** [transactionError] is [null] or an error object; an object is truthy. *)
Record HeliusTransaction := mkTransaction {
  txType : string;
  txSignature : string;
  txTimestamp : Z;
  tokenTransfers : list HeliusTokenTransfer;
  nativeTransfers : list HeliusNativeTransfer;
  transactionError : option string
}.

Inductive Direction := buy | sell.

Record ParsedTokenTransfer := mkParsed {
  parsedType : Direction;
  parsedTokenMint : string;
  parsedTokenSymbol : string;
  parsedTokenName : string;
  parsedAmount : float;
  parsedPriceUsd : float;
  parsedValueUsd : float;
  parsedSignature : string;
  parsedTimestamp : Z
}.

Record BuyTransactionData := mkBuyData {
  buyWalletAddress : string;
  buyTokenMint : string;
  buyTokenSymbol : string;
  buyTokenName : string;
  buySignature : string;
  buyTimestamp : Z;
  buyPriceUsd : float;
  buyAmount : float;
  buyValueUsd : float
}.

Record SellTransactionData := mkSellData {
  sellWalletAddress : string;
  sellTokenMint : string;
  sellSignature : string;
  sellTimestamp : Z;
  sellPriceUsd : float;
  sellAmount : float;
  sellValueUsd : float
}.

(** A row of [positions].  [id] stands for the generated UUID; the two
    timestamp columns hold the instant in milliseconds that
    [new Date (seconds * 1000)] denotes. *)
Record Position := mkPosition {
  id : nat;
  wallet_address : string;
  token_mint : string;
  token_symbol : option string;
  token_name : option string;
  buy_signature : string;
  buy_timestamp : Z;
  buy_price_usd : float;
  buy_amount : float;
  buy_value_usd : float;
  sell_signature : option string;
  sell_timestamp : option Z;
  sell_price_usd : option float;
  sell_amount : option float;
  sell_value_usd : option float;
  hold_duration_seconds : option Z;
  profit_loss_usd : option float;
  profit_loss_percent : option float;
  is_open : bool
}.

(** A row of [processed_signatures]. *)
Record ProcessedSignature := mkProcessed {
  ps_signature : string;
  ps_wallet_address : string
}.

Record BuyNotificationData := mkBuyNote {
  bnWalletAddress : string;
  bnWalletLabel : option string;
  bnTokenSymbol : string;
  bnAmount : float;
  bnPriceUsd : float;
  bnValueUsd : float;
  bnSignature : string
}.

Record SellNotificationData := mkSellNote {
  snWalletAddress : string;
  snWalletLabel : option string;
  snTokenSymbol : string;
  snAmount : float;
  snBuyPriceUsd : float;
  snSellPriceUsd : float;
  snBuyValueUsd : float;
  snSellValueUsd : float;
  snProfitLossUsd : float;
  snProfitLossPercent : float;
  snHoldDurationSeconds : Z;
  snSignature : string
}.

Inductive Notification :=
| BuyAlert (data : BuyNotificationData)
| SellAlert (data : SellNotificationData).

(** ** Configuration ([config/constants]) *)

Definition WRAPPED_SOL : string := "So11111111111111111111111111111111111111112".
Definition USDC_MINT : string := "EPjFWdd5AufqSSqeM2qN1xzybapC8G4wEGGkZwyTDt1v".
Definition USDT_MINT : string := "Es9vMFrzaCERmJfrF4H2FYD4KCoNkY11McCe8BenwNYB".

(** The two values read from the environment. *)
Record Config := mkConfig {
  MIN_BUY_VALUE_USD : float;
  MAX_TOKEN_AGE_MINUTES : Z
}.

(** [parseFloat ('1000')] and [parseInt ('60', 10)]: the defaults. *)
Definition defaultConfig : Config :=
  {| MIN_BUY_VALUE_USD := 1000%float; MAX_TOKEN_AGE_MINUTES := 60 |}.

(** ** The world an [async] function runs in *)

Record World := mkWorld {
  positions : list Position;
  processed_signatures : list ProcessedSignature;
  tokenAgeCache : gmap string Z;
  lastProcessedSignatures : gmap string string;
  sent : list Notification
}.

Definition emptyWorld : World :=
  {| positions := []; processed_signatures := []; tokenAgeCache := ∅;
     lastProcessedSignatures := ∅; sent := [] |}.

Inductive Thrown :=
| UniqueViolation (constraint : string)
| FetchFailure.

Inductive Completion (A : Type) :=
| Normal (a : A)
| Abrupt (e : Thrown).
Arguments Normal {A} a.
Arguments Abrupt {A} e.

Definition Async (A : Type) : Type := World → Completion A * World.

#[global] Instance Async_ret : MRet Async := λ A a w, (Normal a, w).
#[global] Instance Async_bind : MBind Async := λ A B f m w,
  match m w with
  | (Normal a, w') => f a w'
  | (Abrupt e, w') => (Abrupt e, w')
  end.

Definition throw {A} (e : Thrown) : Async A := λ w, (Abrupt e, w).
Definition getWorld : Async World := λ w, (Normal w, w).
Definition putWorld (w' : World) : Async unit := λ _, (Normal tt, w').

(** [try { body } catch (error) { log }]: the error is swallowed, the
    effects stay. *)
Definition tryCatch (body : Async unit) : Async unit := λ w,
  match body w with
  | (Normal _, w') => (Normal tt, w')
  | (Abrupt _, w') => (Normal tt, w')
  end.

(** ** Notification filter ([utils/filters]) *)

Definition shouldNotifyBuy (cfg : Config) (transactionValueUsd : float) : bool :=
  PrimFloat.leb (MIN_BUY_VALUE_USD cfg) transactionValueUsd.

Definition shouldNotifySell : bool := true.

(** [percent.toFixed (2)], by the steps of Number.prototype.toFixed: NaN
    and the infinities print by name, a negative [x] prints as ["-"]
    followed by the digits of [-x], and the digits are those of the integer
    [n] for which [n / 100 - x] is closest to zero (the larger [n] on a
    tie), with a point before the last two.  [x] is [m * 2 ^ e] exactly, so
    [n] is computed on integers.  Values of magnitude [1e21] and above
    print in exponent notation, which is not modelled: [None]. *)
Definition centsOf (m : positive) (e : Z) : Z :=
  if 0 <=? e then Z.pos m * 2 ^ e * 100
  else (200 * Z.pos m + 2 ^ (- e)) / (2 * 2 ^ (- e)).

Definition twoDecimals (n : Z) : string :=
  pretty (n / 100) +:+ "." +:+ pretty (n mod 100 / 10) +:+ pretty (n mod 10).

Definition toFixed2 (x : float) : option string :=
  match Prim2SF x with
  | S754_nan => Some "NaN"
  | S754_infinity false => Some "Infinity"
  | S754_infinity true => Some "-Infinity"
  | S754_zero _ => Some "0.00"
  | S754_finite s m e =>
      if PrimFloat.leb 1e21 (abs x) then None
      else Some ((if s then "-" else EmptyString) +:+ twoDecimals (centsOf m e))
  end.

Definition formatPercent (percent : float) : option string :=
  let sign := if PrimFloat.leb 0 percent then "+" else EmptyString in
  digits ← toFixed2 percent; Some (sign +:+ digits +:+ "%").

(** ** Transfer classifier ([services/parser.ts]) *)

(** The placeholder price of the native asset, in USD. *)
Definition estimatedSolPrice : float := 100%float.

(** First loop of [calculateUSDValue]: the first USDC or USDT transfer
    that the wallet sends (buy) or receives (sell). *)
Fixpoint stablecoinValue (tokenTransfers : list HeliusTokenTransfer)
    (walletAddress : string) (isBuy : bool) : option float :=
  match tokenTransfers with
  | [] => None
  | transfer :: rest =>
      if (String.eqb (mint transfer) USDC_MINT || String.eqb (mint transfer) USDT_MINT)%bool
      then
        if (isBuy && sameAccount (fromUserAccount transfer) walletAddress)%bool
        then Some (tokenAmount transfer)
        else if (negb isBuy && sameAccount (toUserAccount transfer) walletAddress)%bool
        then Some (tokenAmount transfer)
        else stablecoinValue rest walletAddress isBuy
      else stablecoinValue rest walletAddress isBuy
  end.

(** Second loop: the first wrapped-SOL transfer, whoever its parties. *)
Fixpoint wrappedSolValue (tokenTransfers : list HeliusTokenTransfer) : option float :=
  match tokenTransfers with
  | [] => None
  | transfer :: rest =>
      if String.eqb (mint transfer) WRAPPED_SOL
      then Some (tokenAmount transfer * estimatedSolPrice)%float
      else wrappedSolValue rest
  end.

(** Third loop: the first native transfer in the wallet's direction,
    converted from lamports. *)
Fixpoint nativeValue (nativeTransfers : list HeliusNativeTransfer)
    (walletAddress : string) (isBuy : bool) : option float :=
  match nativeTransfers with
  | [] => None
  | transfer :: rest =>
      if (isBuy && sameAccount (nativeFromUserAccount transfer) walletAddress)%bool
      then Some (nativeAmount transfer / 1e9 * estimatedSolPrice)%float
      else if (negb isBuy && sameAccount (nativeToUserAccount transfer) walletAddress)%bool
      then Some (nativeAmount transfer / 1e9 * estimatedSolPrice)%float
      else nativeValue rest walletAddress isBuy
  end.

Definition calculateUSDValue (tokenTransfers : list HeliusTokenTransfer)
    (nativeTransfers : list HeliusNativeTransfer)
    (walletAddress : string) (isBuy : bool) : float :=
  match stablecoinValue tokenTransfers walletAddress isBuy with
  | Some value => value
  | None =>
      match wrappedSolValue tokenTransfers with
      | Some value => value
      | None =>
          match nativeValue nativeTransfers walletAddress isBuy with
          | Some value => value
          | None => 0%float
          end
      end
  end.

(** The scan of [parseSwapTransaction] for "the non-SOL token transfer
    involving this wallet": [(isBuy, tokenTransfer)] at the [break], [None]
    when the loop runs out. *)
Fixpoint findTokenTransfer (tokenTransfers : list HeliusTokenTransfer)
    (walletAddress : string) : option (bool * HeliusTokenTransfer) :=
  match tokenTransfers with
  | [] => None
  | transfer :: rest =>
      if String.eqb (mint transfer) WRAPPED_SOL
      then findTokenTransfer rest walletAddress
      else if sameAccount (toUserAccount transfer) walletAddress
      then Some (true, transfer)
      else if sameAccount (fromUserAccount transfer) walletAddress
      then Some (false, transfer)
      else findTokenTransfer rest walletAddress
  end.

Definition setTokenAgeCache (cache : gmap string Z) (w : World) : World :=
  {| positions := positions w; processed_signatures := processed_signatures w;
     tokenAgeCache := cache;
     lastProcessedSignatures := lastProcessedSignatures w; sent := sent w |}.

(** [if (tokenCreationTime)]: [null] and [0] are falsy. *)
Definition knownCreationTime (tokenCreationTime : option Z) : option Z :=
  match tokenCreationTime with
  | Some t => if t =? 0 then None else Some t
  | None => None
  end.

Section Classifier.

Variable cfg : Config.

(** The history request of the age lookup, by mint: [None] when the
    request rejects (the rejection is caught and logged), otherwise the
    transactions of the response body. *)
Variable axios_get : string → option (list HeliusTransaction).

Definition getTokenCreationTime (mintAddress : string) : Async (option Z) := λ w,
  match tokenAgeCache w !! mintAddress with
  | Some cached => (Normal (Some cached), w)
  | None =>
      match axios_get mintAddress with
      | Some data =>
          match last data with
          | Some creationTx =>
              let creationTime := txTimestamp creationTx in
              (Normal (Some creationTime),
               setTokenAgeCache (<[mintAddress := creationTime]> (tokenAgeCache w)) w)
          | None => (Normal None, w)
          end
      | None => (Normal None, w)
      end
  end.

Definition parseSwapTransaction (tx : HeliusTransaction) (walletAddress : string)
    : Async (option ParsedTokenTransfer) :=
  if negb (String.eqb (txType tx) "SWAP") then mret None
  else if bool_decide (is_Some (transactionError tx)) then mret None
  else
    match findTokenTransfer (tokenTransfers tx) walletAddress with
    | None => mret None
    | Some (isBuy, tokenTransfer) =>
        let usdValue :=
          calculateUSDValue (tokenTransfers tx) (nativeTransfers tx) walletAddress isBuy in
        let price := (usdValue / tokenAmount tokenTransfer)%float in
        let parsed :=
          {| parsedType := if isBuy then buy else sell;
             parsedTokenMint := mint tokenTransfer;
             parsedTokenSymbol := mint tokenTransfer;
             parsedTokenName := mint tokenTransfer;
             parsedAmount := tokenAmount tokenTransfer;
             parsedPriceUsd := price;
             parsedValueUsd := usdValue;
             parsedSignature := txSignature tx;
             parsedTimestamp := txTimestamp tx |} in
        if isBuy then
          tokenCreationTime ← getTokenCreationTime (mint tokenTransfer);
          match knownCreationTime tokenCreationTime with
          | Some creationTime =>
              let tokenAgeMinutes := (txTimestamp tx - creationTime) / 60 in
              if MAX_TOKEN_AGE_MINUTES cfg <? tokenAgeMinutes
              then mret None
              else mret (Some parsed)
          | None => mret (Some parsed)
          end
        else mret (Some parsed)
    end.

End Classifier.

(** ** Store queries ([database/queries]) *)

Definition setPositions (rows : list Position) (w : World) : World :=
  {| positions := rows; processed_signatures := processed_signatures w;
     tokenAgeCache := tokenAgeCache w;
     lastProcessedSignatures := lastProcessedSignatures w; sent := sent w |}.

Definition setProcessedSignatures (rows : list ProcessedSignature) (w : World) : World :=
  {| positions := positions w; processed_signatures := rows;
     tokenAgeCache := tokenAgeCache w;
     lastProcessedSignatures := lastProcessedSignatures w; sent := sent w |}.

(** [.select ('signature').eq ('signature', signature).single ()]: [data]
    is the row when exactly one matches, and [null] (with the error
    PGRST116, which is not logged) otherwise. *)
Definition isSignatureProcessed (signature : string) : Async bool := λ w,
  match List.filter (λ row, String.eqb (ps_signature row) signature)
          (processed_signatures w) with
  | [_] => (Normal true, w)
  | _ => (Normal false, w)
  end.

(** A plain [insert]: the primary key rejects a signature that is already
    there, and the error is rethrown. *)
Definition markSignatureProcessed (signature walletAddress : string) : Async unit := λ w,
  if existsb (λ row, String.eqb (ps_signature row) signature) (processed_signatures w)
  then (Abrupt (UniqueViolation "processed_signatures_pkey"), w)
  else
    (Normal tt,
     setProcessedSignatures
       (processed_signatures w ++
          [{| ps_signature := signature; ps_wallet_address := walletAddress |}]) w).

(** [gen_random_uuid ()]: an identifier no row carries yet. *)
Definition freshId (rows : list Position) : nat :=
  S (foldr Nat.max 0%nat (map id rows)).

Definition recordBuyTransaction (data : BuyTransactionData) : Async unit := λ w,
  if existsb (λ row, String.eqb (buy_signature row) (buySignature data)) (positions w)
  then (Abrupt (UniqueViolation "positions_buy_signature_key"), w)
  else
    (Normal tt,
     setPositions
       (positions w ++
          [{| id := freshId (positions w);
              wallet_address := buyWalletAddress data;
              token_mint := buyTokenMint data;
              token_symbol := Some (buyTokenSymbol data);
              token_name := Some (buyTokenName data);
              buy_signature := buySignature data;
              buy_timestamp := buyTimestamp data * 1000;
              buy_price_usd := buyPriceUsd data;
              buy_amount := buyAmount data;
              buy_value_usd := buyValueUsd data;
              sell_signature := None;
              sell_timestamp := None;
              sell_price_usd := None;
              sell_amount := None;
              sell_value_usd := None;
              hold_duration_seconds := None;
              profit_loss_usd := None;
              profit_loss_percent := None;
              is_open := true |}]) w).

(** The three [.eq] filters of [getOpenPosition]; the store compares text
    exactly. *)
Definition isOpenFor (walletAddress tokenMint : string) (row : Position) : bool :=
  (String.eqb (wallet_address row) walletAddress
   && String.eqb (token_mint row) tokenMint
   && is_open row)%bool.

(** [.order ('buy_timestamp', { ascending: false }).limit (1)]: the row
    with the latest buy; among equal timestamps the store is free to
    choose, and this model takes the earliest inserted. *)
Fixpoint latestBuy (rows : list Position) : option Position :=
  match rows with
  | [] => None
  | row :: rest =>
      match latestBuy rest with
      | None => Some row
      | Some later =>
          if buy_timestamp later <=? buy_timestamp row then Some row else Some later
      end
  end.

(** [.single ()] after [.limit (1)]: no row gives PGRST116, answered with
    [null]; otherwise the one row. *)
Definition getOpenPosition (walletAddress tokenMint : string) : Async (option Position) := λ w,
  (Normal (latestBuy (List.filter (isOpenFor walletAddress tokenMint) (positions w))), w).

(** The [update] of [recordSellTransaction] applied to one row. *)
Definition closeRow (data : SellTransactionData) (sellTimestampMs holdDurationSeconds : Z)
    (profitLossUsd profitLossPercent : float) (row : Position) : Position :=
  {| id := id row;
     wallet_address := wallet_address row;
     token_mint := token_mint row;
     token_symbol := token_symbol row;
     token_name := token_name row;
     buy_signature := buy_signature row;
     buy_timestamp := buy_timestamp row;
     buy_price_usd := buy_price_usd row;
     buy_amount := buy_amount row;
     buy_value_usd := buy_value_usd row;
     sell_signature := Some (sellSignature data);
     sell_timestamp := Some sellTimestampMs;
     sell_price_usd := Some (sellPriceUsd data);
     sell_amount := Some (sellAmount data);
     sell_value_usd := Some (sellValueUsd data);
     hold_duration_seconds := Some holdDurationSeconds;
     profit_loss_usd := Some profitLossUsd;
     profit_loss_percent := Some profitLossPercent;
     is_open := false |}.

(** [.update ({...}).eq ('id', position.id)]. *)
Definition updateById (target : nat) (f : Position → Position)
    (rows : list Position) : list Position :=
  map (λ row, if Nat.eqb (id row) target then f row else row) rows.

Definition updatePositions (target : nat) (f : Position → Position) : Async unit := λ w,
  (Normal tt, setPositions (updateById target f (positions w)) w).

Definition recordSellTransaction (data : SellTransactionData) : Async unit :=
  position ← getOpenPosition (sellWalletAddress data) (sellTokenMint data);
  match position with
  | None => mret tt
  | Some position =>
      let buyTimestampMs := buy_timestamp position in
      let sellTimestampMs := sellTimestamp data * 1000 in
      let holdDurationSeconds := (sellTimestampMs - buyTimestampMs) / 1000 in
      let profitLossUsd := (sellValueUsd data - buy_value_usd position)%float in
      let profitLossPercent :=
        ((sellPriceUsd data - buy_price_usd position) / buy_price_usd position * 100)%float in
      updatePositions (id position)
        (closeRow data sellTimestampMs holdDurationSeconds profitLossUsd profitLossPercent)
  end.

(** ** Notifier ([services/telegram.ts]); delivery itself is external, a
    sent message is appended to the outbox.  A delivery that fails, which
    the service rethrows, is outside the model. *)

Definition setSent (outbox : list Notification) (w : World) : World :=
  {| positions := positions w; processed_signatures := processed_signatures w;
     tokenAgeCache := tokenAgeCache w;
     lastProcessedSignatures := lastProcessedSignatures w; sent := outbox |}.

Definition sendBuyNotification (data : BuyNotificationData) : Async unit := λ w,
  (Normal tt, setSent (sent w ++ [BuyAlert data]) w).

Definition sendSellNotification (data : SellNotificationData) : Async unit := λ w,
  (Normal tt, setSent (sent w ++ [SellAlert data]) w).

(** ** Poll orchestrator ([index.ts]) *)

Definition setLastProcessedSignatures (cursor : gmap string string) (w : World) : World :=
  {| positions := positions w; processed_signatures := processed_signatures w;
     tokenAgeCache := tokenAgeCache w;
     lastProcessedSignatures := cursor; sent := sent w |}.

(** [lastProcessed && tx.signature === lastProcessed]: [undefined] and the
    empty string are falsy. *)
Definition reachedLastProcessed (lastProcessed : option string) (tx : HeliusTransaction) : bool :=
  match lastProcessed with
  | Some s => (negb (String.eqb s EmptyString) && String.eqb (txSignature tx) s)%bool
  | None => false
  end.

(** The transactions on which the body of the [for] loop of
    [processWallet] runs: the loop walks [reversedTxs] from its head and
    leaves at the first signature equal to [lastProcessed]. *)
Fixpoint walked (lastProcessed : option string) (reversedTxs : list HeliusTransaction)
    : list HeliusTransaction :=
  match reversedTxs with
  | [] => []
  | tx :: rest =>
      if reachedLastProcessed lastProcessed tx then []
      else tx :: walked lastProcessed rest
  end.

Section Orchestrator.

Variable cfg : Config.
Variable axios_get : string → option (list HeliusTransaction).

(** The body of the loop after the [break] test; [continue] ends it. *)
Definition handleTransaction (tx : HeliusTransaction) (walletAddress : string)
    (walletLabel : option string) : Async unit :=
  processed ← isSignatureProcessed (txSignature tx);
  if processed : bool then mret tt
  else
    parsed ← parseSwapTransaction cfg axios_get tx walletAddress;
    match parsed with
    | None => markSignatureProcessed (txSignature tx) walletAddress
    | Some parsed =>
        match parsedType parsed with
        | buy =>
            recordBuyTransaction
              {| buyWalletAddress := walletAddress;
                 buyTokenMint := parsedTokenMint parsed;
                 buyTokenSymbol := parsedTokenSymbol parsed;
                 buyTokenName := parsedTokenName parsed;
                 buySignature := parsedSignature parsed;
                 buyTimestamp := parsedTimestamp parsed;
                 buyPriceUsd := parsedPriceUsd parsed;
                 buyAmount := parsedAmount parsed;
                 buyValueUsd := parsedValueUsd parsed |};;
            (if shouldNotifyBuy cfg (parsedValueUsd parsed)
             then sendBuyNotification
                    {| bnWalletAddress := walletAddress;
                       bnWalletLabel := walletLabel;
                       bnTokenSymbol := parsedTokenSymbol parsed;
                       bnAmount := parsedAmount parsed;
                       bnPriceUsd := parsedPriceUsd parsed;
                       bnValueUsd := parsedValueUsd parsed;
                       bnSignature := parsedSignature parsed |}
             else mret tt);;
            markSignatureProcessed (txSignature tx) walletAddress
        | sell =>
            position ← getOpenPosition walletAddress (parsedTokenMint parsed);
            match position with
            | None => markSignatureProcessed (txSignature tx) walletAddress
            | Some position =>
                recordSellTransaction
                  {| sellWalletAddress := walletAddress;
                     sellTokenMint := parsedTokenMint parsed;
                     sellSignature := parsedSignature parsed;
                     sellTimestamp := parsedTimestamp parsed;
                     sellPriceUsd := parsedPriceUsd parsed;
                     sellAmount := parsedAmount parsed;
                     sellValueUsd := parsedValueUsd parsed |};;
                (* the stored instant is a whole number of seconds *)
                let buyTimestampSeconds := buy_timestamp position / 1000 in
                let holdDurationSeconds := parsedTimestamp parsed - buyTimestampSeconds in
                let profitLossUsd := (parsedValueUsd parsed - buy_value_usd position)%float in
                let profitLossPercent :=
                  ((parsedPriceUsd parsed - buy_price_usd position)
                   / buy_price_usd position * 100)%float in
                (if shouldNotifySell
                 then sendSellNotification
                        {| snWalletAddress := walletAddress;
                           snWalletLabel := walletLabel;
                           snTokenSymbol := parsedTokenSymbol parsed;
                           snAmount := parsedAmount parsed;
                           snBuyPriceUsd := buy_price_usd position;
                           snSellPriceUsd := parsedPriceUsd parsed;
                           snBuyValueUsd := buy_value_usd position;
                           snSellValueUsd := parsedValueUsd parsed;
                           snProfitLossUsd := profitLossUsd;
                           snProfitLossPercent := profitLossPercent;
                           snHoldDurationSeconds := holdDurationSeconds;
                           snSignature := parsedSignature parsed |}
                 else mret tt);;
                markSignatureProcessed (txSignature tx) walletAddress
            end
        end
    end.

(** [for (const tx of reversedTxs) { if (...) break; ... }]. *)
Fixpoint processLoop (lastProcessed : option string) (walletAddress : string)
    (walletLabel : option string) (reversedTxs : list HeliusTransaction) : Async unit :=
  match reversedTxs with
  | [] => mret tt
  | tx :: rest =>
      if reachedLastProcessed lastProcessed tx then mret tt
      else
        handleTransaction tx walletAddress walletLabel;;
        processLoop lastProcessed walletAddress walletLabel rest
  end.

(** One poll of one wallet.  [fetched] is the answer of the transaction
    source, newest first; [None] when the request fails. *)
Definition processWallet (fetched : option (list HeliusTransaction))
    (walletAddress : string) (walletLabel : option string) : Async unit :=
  tryCatch (
    transactions ← match fetched with
                   | Some transactions => mret transactions
                   | None => throw FetchFailure
                   end;
    world ← getWorld;
    let lastProcessed := lastProcessedSignatures world !! walletAddress in
    let reversedTxs := rev transactions in
    processLoop lastProcessed walletAddress walletLabel reversedTxs;;
    match transactions with
    | newest :: _ =>
        world' ← getWorld;
        putWorld (setLastProcessedSignatures
                    (<[walletAddress := txSignature newest]> (lastProcessedSignatures world'))
                    world')
    | [] => mret tt
    end).

(** The loop body run over a list of transactions, one after the other. *)
Fixpoint handleAll (walletAddress : string) (walletLabel : option string)
    (txs : list HeliusTransaction) : Async unit :=
  match txs with
  | [] => mret tt
  | tx :: rest =>
      handleTransaction tx walletAddress walletLabel;;
      handleAll walletAddress walletLabel rest
  end.

End Orchestrator.

(** ** Statement vocabulary *)

(** The recording operations of the position store, and a sequence of
    them run from a given world.  An operation that throws leaves the
    tables as they were; its caller logs the error and goes on. *)
Inductive StoreOp :=
| RecordBuy (data : BuyTransactionData)
| RecordSell (data : SellTransactionData).

Definition applyOp (w : World) (op : StoreOp) : World :=
  match op with
  | RecordBuy data => snd (recordBuyTransaction data w)
  | RecordSell data => snd (recordSellTransaction data w)
  end.

Definition runOps (ops : list StoreOp) (w : World) : World :=
  fold_left applyOp ops w.

(** How many rows of [positions] are open for the pair. *)
Definition countOpen (walletAddress tokenMint : string) (w : World) : nat :=
  length (List.filter (isOpenFor walletAddress tokenMint) (positions w)).

(** Every buy of the sequence is recorded while its pair has no open
    row. *)
Fixpoint buysWhenClosed (ops : list StoreOp) (w : World) : Prop :=
  match ops with
  | [] => True
  | op :: rest =>
      match op with
      | RecordBuy data =>
          countOpen (buyWalletAddress data) (buyTokenMint data) w = 0%nat
      | RecordSell _ => True
      end ∧ buysWhenClosed rest (applyOp w op)
  end.

(** [x >= y] as IEEE-754 decides it: the comparison of [x] with [y]
    answers "equal" or "greater" (and never does so for a NaN). *)
Definition floatGe (x y : float) : Prop :=
  PrimFloat.compare x y = FEq ∨ PrimFloat.compare x y = FGt.

(** Following the specification's words: the first transfer, in source
    order, whose mint is not the wrapped-native mint and which involves the
    wallet as receiver or as sender, accounts being compared the way the
    classifier compares them. *)
Definition firstInvolving (tokenTransfers : list HeliusTokenTransfer)
    (walletAddress : string) : option HeliusTokenTransfer :=
  List.find
    (λ transfer,
       (negb (String.eqb (mint transfer) WRAPPED_SOL)
        && (sameAccount (toUserAccount transfer) walletAddress
            || sameAccount (fromUserAccount transfer) walletAddress))%bool)
    tokenTransfers.

(** A stablecoin transfer that moves in the direction of the wallet's
    role: sent by the wallet for a buy, received by it for a sell. *)
Definition stablecoinInDirection (walletAddress : string) (isBuy : bool)
    (transfer : HeliusTokenTransfer) : bool :=
  ((String.eqb (mint transfer) USDC_MINT || String.eqb (mint transfer) USDT_MINT)
   && (if isBuy then sameAccount (fromUserAccount transfer) walletAddress
       else sameAccount (toUserAccount transfer) walletAddress))%bool.

(** Following the specification's words: the transactions of a
    newest-first batch that are strictly newer than the watermark, that is,
    those fetched ahead of it. *)
Fixpoint strictlyNewer (lastSeen : option string) (batch : list HeliusTransaction)
    : list HeliusTransaction :=
  match batch with
  | [] => []
  | tx :: older =>
      if reachedLastProcessed lastSeen tx then []
      else tx :: strictlyNewer lastSeen older
  end.

(** The record that [parseSwapTransaction] builds from the transfer it
    classified on. *)
Definition parsedFrom (tx : HeliusTransaction) (walletAddress : string)
    (isBuy : bool) (tokenTransfer : HeliusTokenTransfer) : ParsedTokenTransfer :=
  let usdValue :=
    calculateUSDValue (tokenTransfers tx) (nativeTransfers tx) walletAddress isBuy in
  {| parsedType := if isBuy then buy else sell;
     parsedTokenMint := mint tokenTransfer;
     parsedTokenSymbol := mint tokenTransfer;
     parsedTokenName := mint tokenTransfer;
     parsedAmount := tokenAmount tokenTransfer;
     parsedPriceUsd := (usdValue / tokenAmount tokenTransfer)%float;
     parsedValueUsd := usdValue;
     parsedSignature := txSignature tx;
     parsedTimestamp := txTimestamp tx |}.

(** The age test of the buy path on a known creation time. *)
Definition olderThanMaximum (cfg : Config) (tx : HeliusTransaction) (creationTime : Z) : bool :=
  MAX_TOKEN_AGE_MINUTES cfg <? (txTimestamp tx - creationTime) / 60.

(** ** Fixtures: one whale, one token, one round trip *)

Definition whale : string := "6FNy8RFVYoWUZU4TcsjwYp9dSCxe9GUxELg5qy4oekbS".

(** An address that differs from [whale] in the case of its last letter. *)
Definition otherWallet : string := "6FNy8RFVYoWUZU4TcsjwYp9dSCxe9GUxELg5qy4oekbs".

Definition pool : string := "5Q544fKrFoe6tsEbD7S8EmxGTJYAKtTVhAW5Q5pge4j1".

Definition bonk : string := "DezXAZ8z7PnrnRJjz3wXBoRgixCa6xjnB7YaB1pPB263".

Definition firstBuy : BuyTransactionData :=
  {| buyWalletAddress := whale; buyTokenMint := bonk;
     buyTokenSymbol := bonk; buyTokenName := bonk;
     buySignature := "S1"; buyTimestamp := 1700000000;
     buyPriceUsd := 0.000025; buyAmount := 1000000000; buyValueUsd := 25000 |}.

Definition secondBuy : BuyTransactionData :=
  {| buyWalletAddress := whale; buyTokenMint := bonk;
     buyTokenSymbol := bonk; buyTokenName := bonk;
     buySignature := "S2"; buyTimestamp := 1700000600;
     buyPriceUsd := 0.00003; buyAmount := 1000000000; buyValueUsd := 30000 |}.

Definition firstSell : SellTransactionData :=
  {| sellWalletAddress := whale; sellTokenMint := bonk;
     sellSignature := "S3"; sellTimestamp := 1700187200;
     sellPriceUsd := 0.000035; sellAmount := 1000000000; sellValueUsd := 35000 |}.

Definition afterFirstBuy : World := runOps [RecordBuy firstBuy] emptyWorld.

Definition openedByFirstBuy : Position :=
  {| id := 1;
     wallet_address := whale; token_mint := bonk;
     token_symbol := Some bonk; token_name := Some bonk;
     buy_signature := "S1"; buy_timestamp := 1700000000000;
     buy_price_usd := 0.000025; buy_amount := 1000000000; buy_value_usd := 25000;
     sell_signature := None; sell_timestamp := None; sell_price_usd := None;
     sell_amount := None; sell_value_usd := None; hold_duration_seconds := None;
     profit_loss_usd := None; profit_loss_percent := None;
     is_open := true |}.

Definition ledgerWithS1 : World :=
  snd (markSignatureProcessed "S1" whale emptyWorld).

(** A request of the age lookup that always rejects. *)
Definition lookupFails : string → option (list HeliusTransaction) := λ _, None.

Definition swapOf (signature : string) (timestamp : Z)
    (transfers : list HeliusTokenTransfer) : HeliusTransaction :=
  {| txType := "SWAP"; txSignature := signature; txTimestamp := timestamp;
     tokenTransfers := transfers; nativeTransfers := []; transactionError := None |}.

(** The whale receives the token and pays 0.25 wrapped SOL and 25 USDC. *)
Definition buyWithUsdc : HeliusTransaction :=
  swapOf "S1" 1700000000
    [ {| fromUserAccount := Some pool; toUserAccount := Some whale;
         mint := bonk; tokenAmount := 1000000 |};
      {| fromUserAccount := Some whale; toUserAccount := Some pool;
         mint := WRAPPED_SOL; tokenAmount := 0.25 |};
      {| fromUserAccount := Some whale; toUserAccount := Some pool;
         mint := USDC_MINT; tokenAmount := 25 |} ].

(** A swap whose only token transfer goes to [otherWallet]. *)
Definition swapToOtherWallet : HeliusTransaction :=
  swapOf "S4" 1700000000
    [ {| fromUserAccount := Some pool; toUserAccount := Some otherWallet;
         mint := bonk; tokenAmount := 1000000 |} ].

(** The token transfer that the whale receives carries the amount 0; the
    whale pays 25 USDC. *)
Definition buyOfZeroAmount : HeliusTransaction :=
  swapOf "S5" 1700000000
    [ {| fromUserAccount := Some pool; toUserAccount := Some whale;
         mint := bonk; tokenAmount := 0 |};
      {| fromUserAccount := Some whale; toUserAccount := Some pool;
         mint := USDC_MINT; tokenAmount := 25 |} ].

(** The age lookup answers with one transaction, stamped 1700000000. *)
Definition lookupCreatedAt1700000000 : string → option (list HeliusTransaction) :=
  λ _, Some [swapOf "S0" 1700000000 []].

(** A buy 3630 seconds (60 minutes and 30 seconds) after that stamp. *)
Definition buyOfHourOldToken : HeliusTransaction :=
  swapOf "S6" 1700003630
    [ {| fromUserAccount := Some pool; toUserAccount := Some whale;
         mint := bonk; tokenAmount := 1000000 |} ].

(** Two polls of the whale: the first batch holds the buy [S1]; the second,
    newest first, holds a later buy [S7] ahead of it. *)
Definition laterBuy : HeliusTransaction :=
  swapOf "S7" 1700000600
    [ {| fromUserAccount := Some pool; toUserAccount := Some whale;
         mint := bonk; tokenAmount := 1000000 |};
      {| fromUserAccount := Some whale; toUserAccount := Some pool;
         mint := USDC_MINT; tokenAmount := 30 |} ].

Definition afterFirstPoll : World :=
  snd (processWallet defaultConfig lookupFails (Some [buyWithUsdc]) whale None emptyWorld).

Definition afterSecondPoll : World :=
  snd (processWallet defaultConfig lookupFails (Some [laterBuy; buyWithUsdc]) whale None
         afterFirstPoll).

Definition afterThirdPoll : World :=
  snd (processWallet defaultConfig lookupFails (Some [laterBuy; buyWithUsdc]) whale None
         afterSecondPoll).

(** The whale sends the token back and receives 35 USDC, 187200 seconds
    after [buyWithUsdc]. *)
Definition sellWithUsdc : HeliusTransaction :=
  swapOf "S8" 1700187200
    [ {| fromUserAccount := Some whale; toUserAccount := Some pool;
         mint := bonk; tokenAmount := 1000000 |};
      {| fromUserAccount := Some pool; toUserAccount := Some whale;
         mint := USDC_MINT; tokenAmount := 35 |} ].

Definition afterRoundTrip : World :=
  snd (handleAll defaultConfig lookupFails whale (Some "Whale 1")
         [buyWithUsdc; sellWithUsdc] emptyWorld).

(** ** Display helpers ([utils/filters]) *)

(** [formatHoldDuration] on a whole number of seconds; [`${seconds}s`]
    prints a negative number with its sign. *)
Definition formatHoldDuration (seconds : Z) : string :=
  if seconds <? 60 then pretty seconds +:+ "s"
  else
    let minutes := seconds / 60 in
    if minutes <? 60 then pretty minutes +:+ "m"
    else
      let hours := minutes / 60 in
      let remainingMinutes := minutes mod 60 in
      if hours <? 24 then
        if 0 <? remainingMinutes
        then pretty hours +:+ "h " +:+ pretty remainingMinutes +:+ "m"
        else pretty hours +:+ "h"
      else
        let days := hours / 24 in
        let remainingHours := hours mod 24 in
        if 0 <? remainingHours
        then pretty days +:+ "d " +:+ pretty remainingHours +:+ "h"
        else pretty days +:+ "d".

(** [formatUSD]; [None] where [toFixed2] leaves the modelled range. *)
Definition formatUSD (amount : float) : option string :=
  if PrimFloat.leb 1000000 amount
  then digits ← toFixed2 (amount / 1000000); Some ("$" +:+ digits +:+ "M")
  else if PrimFloat.leb 1000 amount
  then digits ← toFixed2 (amount / 1000); Some ("$" +:+ digits +:+ "K")
  else digits ← toFixed2 amount; Some ("$" +:+ digits).

(** ** Logger ([utils/logger]) *)

Inductive LogLevel := DEBUG | INFO | WARN | ERROR.

Definition levelNumber (level : LogLevel) : Z :=
  match level with DEBUG => 0 | INFO => 1 | WARN => 2 | ERROR => 3 end.

(** What [levelMap[key]] reads: a level under one of the four own keys, a
    member that the object literal inherits from [Object.prototype] (a
    function or an object), or [undefined]. *)
Inductive LevelEntry :=
| OwnLevel (level : LogLevel)
| InheritedMember
| NoEntry.

Definition objectPrototypeNames : list string :=
  [ "constructor"; "__defineGetter__"; "__defineSetter__"; "hasOwnProperty";
    "__lookupGetter__"; "__lookupSetter__"; "isPrototypeOf";
    "propertyIsEnumerable"; "toString"; "valueOf"; "__proto__"; "toLocaleString" ].

Definition levelMap (key : string) : LevelEntry :=
  if String.eqb key "debug" then OwnLevel DEBUG
  else if String.eqb key "info" then OwnLevel INFO
  else if String.eqb key "warn" then OwnLevel WARN
  else if String.eqb key "error" then OwnLevel ERROR
  else if existsb (String.eqb key) objectPrototypeNames then InheritedMember
  else NoEntry.

(** [levelMap[LOG_LEVEL.toLowerCase()] || LogLevel.INFO]: the number 0 and
    [undefined] are falsy.  [None] stands for an inherited member, which is
    truthy and compares with a number as NaN does. *)
Definition currentLevel (LOG_LEVEL : string) : option Z :=
  match levelMap (toLowerCase LOG_LEVEL) with
  | OwnLevel level =>
      if levelNumber level =? 0 then Some (levelNumber INFO) else Some (levelNumber level)
  | InheritedMember => None
  | NoEntry => Some (levelNumber INFO)
  end.

(** [level >= currentLevel]. *)
Definition shouldLog (LOG_LEVEL : string) (level : LogLevel) : bool :=
  match currentLevel LOG_LEVEL with
  | Some current => current <=? levelNumber level
  | None => false
  end.

(** ** Environment check ([config/constants]) *)

Definition requiredVariables : list string :=
  [ "HELIUS_API_KEY"; "SUPABASE_URL"; "SUPABASE_ANON_KEY";
    "TELEGRAM_BOT_TOKEN"; "TELEGRAM_CHAT_ID" ].

(** [!process.env[key]]: the variable is absent or empty. *)
Definition isUnset (env : gmap string string) (key : string) : bool :=
  match env !! key with
  | Some value => String.eqb value EmptyString
  | None => true
  end.

(** [Array.prototype.join]. *)
Fixpoint join (separator : string) (items : list string) : string :=
  match items with
  | [] => EmptyString
  | [item] => item
  | item :: rest => item +:+ separator +:+ join separator rest
  end.

(** [validateEnvVariables]: [None] when it returns, otherwise the message
    of the [Error] it throws. *)
Definition validateEnvVariables (env : gmap string string) : option string :=
  match List.filter (isUnset env) requiredVariables with
  | [] => None
  | missing =>
      Some ("Missing required environment variables: " +:+ join ", " missing)
  end.

(** ** One cycle of the monitoring loop ([index.ts]) *)

Record WalletConfig := mkWalletConfig {
  address : string;
  label : option string
}.

(** The [for] loop inside [while (true)]: the tracked wallets in order,
    each with what the transaction source answers to its request in this
    cycle. *)
Fixpoint monitoringCycle (cfg : Config)
    (axios_get : string → option (list HeliusTransaction))
    (polls : list (WalletConfig * option (list HeliusTransaction))) : Async unit :=
  match polls with
  | [] => mret tt
  | (wallet, fetched) :: rest =>
      processWallet cfg axios_get fetched (address wallet) (label wallet);;
      monitoringCycle cfg axios_get rest
  end.

(** ** More statement vocabulary *)

(** A computation leaves a component of the world as it found it, however
    it completes. *)
Definition preserves {A X : Type} (component : World → X) (m : Async A) : Prop :=
  ∀ w, component (snd (m w)) = component w.

(** A native transfer in the direction of the wallet's role. *)
Definition nativeInDirection (walletAddress : string) (isBuy : bool)
    (transfer : HeliusNativeTransfer) : bool :=
  if isBuy then sameAccount (nativeFromUserAccount transfer) walletAddress
  else sameAccount (nativeToUserAccount transfer) walletAddress.

(** The row that [recordBuyTransaction] inserts into a table. *)
Definition openedRow (data : BuyTransactionData) (rows : list Position) : Position :=
  {| id := freshId rows;
     wallet_address := buyWalletAddress data;
     token_mint := buyTokenMint data;
     token_symbol := Some (buyTokenSymbol data);
     token_name := Some (buyTokenName data);
     buy_signature := buySignature data;
     buy_timestamp := buyTimestamp data * 1000;
     buy_price_usd := buyPriceUsd data;
     buy_amount := buyAmount data;
     buy_value_usd := buyValueUsd data;
     sell_signature := None;
     sell_timestamp := None;
     sell_price_usd := None;
     sell_amount := None;
     sell_value_usd := None;
     hold_duration_seconds := None;
     profit_loss_usd := None;
     profit_loss_percent := None;
     is_open := true |}.

(** A wallet that the fixtures do not trade from. *)
Definition secondWhale : string := "GThUX1Atko4tqhN2NaiTazWSeFWMuiUvfFnyJyUghFMJ".

Definition whaleConfig : WalletConfig := {| address := whale; label := Some "Whale 1" |}.
Definition secondWhaleConfig : WalletConfig := {| address := secondWhale; label := None |}.

(** The age filter of the buy path discards a buy of this mint: the
    lookup answers with a creation time that counts as known (neither
    [null] nor 0), and the whole minutes from it to the transaction exceed
    the maximum. *)
Definition ageFilterDiscards (cfg : Config)
    (axios_get : string → option (list HeliusTransaction))
    (tx : HeliusTransaction) (mintAddress : string) (w : World) : bool :=
  match fst (getTokenCreationTime axios_get mintAddress w) with
  | Normal tokenCreationTime =>
      match knownCreationTime tokenCreationTime with
      | Some creationTime => olderThanMaximum cfg tx creationTime
      | None => false
      end
  | Abrupt _ => false
  end.

(** The whale receives the token and pays 0.25 wrapped SOL and 25 USDC;
    ahead of its USDC leg stands one of 7 USDC that [otherWallet] pays. *)
Definition usdcOfOtherWallet : HeliusTokenTransfer :=
  {| fromUserAccount := Some otherWallet; toUserAccount := Some pool;
     mint := USDC_MINT; tokenAmount := 7 |}.

Definition usdcOfWhale : HeliusTokenTransfer :=
  {| fromUserAccount := Some whale; toUserAccount := Some pool;
     mint := USDC_MINT; tokenAmount := 25 |}.

Definition buyBesideForeignUsdc : HeliusTransaction :=
  swapOf "S9" 1700000000
    [ {| fromUserAccount := Some pool; toUserAccount := Some whale;
         mint := bonk; tokenAmount := 1000000 |};
      {| fromUserAccount := Some whale; toUserAccount := Some pool;
         mint := WRAPPED_SOL; tokenAmount := 0.25 |};
      usdcOfOtherWallet;
      usdcOfWhale ].

(** The whale receives the token and pays 0.25 wrapped SOL, 10 USDC and
    15 USDT. *)
Definition usdtOfWhale : HeliusTokenTransfer :=
  {| fromUserAccount := Some whale; toUserAccount := Some pool;
     mint := USDT_MINT; tokenAmount := 15 |}.

Definition buyWithTwoStablecoins : HeliusTransaction :=
  swapOf "S10" 1700000000
    [ {| fromUserAccount := Some pool; toUserAccount := Some whale;
         mint := bonk; tokenAmount := 1000000 |};
      {| fromUserAccount := Some whale; toUserAccount := Some pool;
         mint := WRAPPED_SOL; tokenAmount := 0.25 |};
      {| fromUserAccount := Some whale; toUserAccount := Some pool;
         mint := USDC_MINT; tokenAmount := 10 |};
      usdtOfWhale ].

(** * Properties *)

(** ** Notification filter *)

Lemma SFcompare_antisym (x y : spec_float) :
  SFcompare y x = CompOpp <$> SFcompare x y.
Proof.
  destruct x as [sx|sx| |sx mx ex], y as [sy|sy| |sy my ey]; simpl;
    try reflexivity;
    try (destruct sx; reflexivity);
    try (destruct sy; reflexivity);
    try (destruct sx, sy; reflexivity).
  rewrite (Z.compare_antisym ex ey).
  pose proof (Pos.compare_cont_antisym mx my Eq) as Hm.
  change (CompOpp Eq) with Eq in Hm. rewrite <- Hm.
  destruct sx, sy; simpl; try reflexivity;
    destruct (ex ?= ey); reflexivity.
Qed.

Lemma leb_floatGe (threshold value : float) :
  PrimFloat.leb threshold value = true ↔ floatGe value threshold.
Proof.
  unfold floatGe. rewrite FloatAxioms.leb_spec, FloatAxioms.compare_spec. unfold SFleb.
  rewrite (SFcompare_antisym (Prim2SF threshold) (Prim2SF value)).
  destruct (SFcompare (Prim2SF threshold) (Prim2SF value)) as [[]|]; simpl;
    split; intros H; try reflexivity; try discriminate;
    try (left; reflexivity); try (right; reflexivity);
    destruct H; discriminate.
Qed.

(** C9.  [shouldNotifyBuy v] is true exactly when [v >=] the configured
    minimum buy value; with the default threshold 1000 it is false at
    999.99 and true at 1000.00; [shouldNotifySell ()] is true. *)
Theorem shouldNotifyBuy_threshold :
  (∀ (cfg : Config) (v : float),
      shouldNotifyBuy cfg v = true ↔ floatGe v (MIN_BUY_VALUE_USD cfg))
  ∧ MIN_BUY_VALUE_USD defaultConfig = 1000%float
  ∧ shouldNotifyBuy defaultConfig 999.99%float = false
  ∧ shouldNotifyBuy defaultConfig 1000.00%float = true
  ∧ shouldNotifySell = true.
Proof.
  split; [|repeat split].
  intros cfg v. unfold shouldNotifyBuy. apply leb_floatGe.
Qed.

(** ** Position store and deduplication ledger *)

Lemma latestBuy_In (rows : list Position) (position : Position) :
  latestBuy rows = Some position → In position rows.
Proof.
  revert position. induction rows as [|row rest IH]; intros position; simpl.
  - discriminate.
  - destruct (latestBuy rest) as [later|].
    + destruct (buy_timestamp later <=? buy_timestamp row);
        intros [= <-]; [left; reflexivity | right; apply IH; reflexivity].
    + intros [= <-]. left; reflexivity.
Qed.

Lemma recordSellTransaction_eq (data : SellTransactionData) (w : World) :
  recordSellTransaction data w =
  match latestBuy (List.filter (isOpenFor (sellWalletAddress data) (sellTokenMint data))
                     (positions w)) with
  | None => (Normal tt, w)
  | Some position =>
      (Normal tt,
       setPositions
         (updateById (id position)
            (closeRow data (sellTimestamp data * 1000)
               ((sellTimestamp data * 1000 - buy_timestamp position) / 1000)
               (sellValueUsd data - buy_value_usd position)%float
               ((sellPriceUsd data - buy_price_usd position)
                / buy_price_usd position * 100)%float)
            (positions w)) w)
  end.
Proof.
  unfold recordSellTransaction, mbind, Async_bind, getOpenPosition. simpl.
  destruct (latestBuy _); reflexivity.
Qed.

Lemma isOpenFor_true (walletAddress tokenMint : string) (row : Position) :
  isOpenFor walletAddress tokenMint row = true ↔
  wallet_address row = walletAddress ∧ token_mint row = tokenMint ∧ is_open row = true.
Proof.
  unfold isOpenFor. rewrite !andb_true_iff, !String.eqb_eq. tauto.
Qed.

Lemma no_open_row_filter (walletAddress tokenMint : string) (rows : list Position) :
  (∀ row, In row rows → wallet_address row = walletAddress →
          token_mint row = tokenMint → is_open row = false) →
  List.filter (isOpenFor walletAddress tokenMint) rows = [].
Proof.
  intros Hclosed.
  destruct (List.filter (isOpenFor walletAddress tokenMint) rows) as [|row rest] eqn:E;
    [reflexivity|].
  assert (Hrow : In row (List.filter (isOpenFor walletAddress tokenMint) rows))
    by (rewrite E; left; reflexivity).
  apply filter_In in Hrow as [Hin Hopen].
  apply isOpenFor_true in Hopen as (Hw & Hm & Ho).
  rewrite (Hclosed row Hin Hw Hm) in Ho. discriminate.
Qed.

(** Among several open rows of a pair the lookup answers with a latest
    buy. *)
Lemma latestBuy_is_latest (rows : list Position) (position : Position) :
  latestBuy rows = Some position →
  ∀ row, In row rows → buy_timestamp row ≤ buy_timestamp position.
Proof.
  revert position. induction rows as [|first rest IH]; intros position; simpl.
  - discriminate.
  - destruct (latestBuy rest) as [later|] eqn:E.
    + destruct (buy_timestamp later <=? buy_timestamp first) eqn:Hcmp;
        intros [= <-] row [<-|Hin].
      * lia.
      * apply Z.leb_le in Hcmp. specialize (IH later eq_refl row Hin). lia.
      * apply Z.leb_gt in Hcmp. lia.
      * apply (IH later eq_refl row Hin).
    + intros [= <-] row [<-|Hin]; [lia|].
      destruct rest; [contradiction|]. simpl in E.
      destruct (latestBuy rest); [destruct (_ <=? _)|]; discriminate.
Qed.

(** C10.  A sell for a pair that has no row with [is_open = true] returns
    normally without a write: the world after [recordSellTransaction] is
    the world before it. *)
Theorem recordSell_without_open_position_is_noop
    (data : SellTransactionData) (w : World) :
  (∀ row, In row (positions w) →
          wallet_address row = sellWalletAddress data →
          token_mint row = sellTokenMint data → is_open row = false) →
  recordSellTransaction data w = (Normal tt, w).
Proof.
  intros Hclosed. rewrite recordSellTransaction_eq.
  rewrite (no_open_row_filter _ _ _ Hclosed). reflexivity.
Qed.

Lemma existsb_signature (signature : string) (rows : list ProcessedSignature) :
  In signature (map ps_signature rows) →
  existsb (λ row, String.eqb (ps_signature row) signature) rows = true.
Proof.
  intros Hin. apply in_map_iff in Hin as (row & Hsig & Hrow).
  apply existsb_exists. exists row. split; [exact Hrow|].
  apply String.eqb_eq. exact Hsig.
Qed.

Lemma filter_signature_absent (signature : string) (rows : list ProcessedSignature) :
  ¬ In signature (map ps_signature rows) →
  List.filter (λ row, String.eqb (ps_signature row) signature) rows = [].
Proof.
  induction rows as [|row rest IH]; simpl; intros Hnot; [reflexivity|].
  destruct (String.eqb (ps_signature row) signature) eqn:E.
  - apply String.eqb_eq in E. exfalso. apply Hnot. left. exact E.
  - apply IH. intros Hin. apply Hnot. right. exact Hin.
Qed.

Lemma filter_signature_present (signature : string) (rows : list ProcessedSignature) :
  List.NoDup (map ps_signature rows) →
  In signature (map ps_signature rows) →
  ∃ row, List.filter (λ row, String.eqb (ps_signature row) signature) rows = [row].
Proof.
  induction rows as [|row rest IH]; simpl; intros Hnodup Hin; [contradiction|].
  apply NoDup_cons_iff in Hnodup as [Hfresh Hrest].
  destruct (String.eqb (ps_signature row) signature) eqn:E.
  - apply String.eqb_eq in E. exists row.
    rewrite filter_signature_absent; [reflexivity|]. rewrite <- E. exact Hfresh.
  - destruct Hin as [Heq|Hin].
    + apply String.eqb_neq in E. contradiction.
    + apply IH; assumption.
Qed.

(** C3, as the code has it.  [markSignatureProcessed] on a signature that
    the ledger already holds leaves the world unchanged and throws the
    primary-key violation to its caller.  The poll loop does not run into
    it: with the signatures of the ledger distinct, as the primary key
    keeps them, [handleTransaction] on such a signature returns at the
    [isSignatureProcessed] test, with no write and no insert. *)
Theorem markSignatureProcessed_duplicate_throws
    (signature walletAddress : string) (w : World) :
  In signature (map ps_signature (processed_signatures w)) →
  markSignatureProcessed signature walletAddress w
    = (Abrupt (UniqueViolation "processed_signatures_pkey"), w)
  ∧ (List.NoDup (map ps_signature (processed_signatures w)) →
     ∀ cfg axios_get tx walletLabel,
       txSignature tx = signature →
       handleTransaction cfg axios_get tx walletAddress walletLabel w = (Normal tt, w)).
Proof.
  intros Hin. split.
  - unfold markSignatureProcessed. rewrite (existsb_signature _ _ Hin). reflexivity.
  - intros Hnodup cfg axios_get tx walletLabel Hsig.
    destruct (filter_signature_present _ _ Hnodup Hin) as [row Hrow].
    unfold handleTransaction, mbind, Async_bind, isSignatureProcessed.
    rewrite Hsig, Hrow. reflexivity.
Qed.

Lemma recordSell_without_open_position_witness :
  recordSellTransaction firstSell emptyWorld = (Normal tt, emptyWorld).
Proof.
  apply (recordSell_without_open_position_is_noop firstSell emptyWorld).
  simpl. intros row [].
Defined.

(** C3, as the specification states it, fails: the second insert of ["S1"]
    completes abruptly. *)
Lemma markSignatureProcessed_second_insert_throws :
  In "S1" (map ps_signature (processed_signatures ledgerWithS1))
  ∧ fst (markSignatureProcessed "S1" whale ledgerWithS1)
    = Abrupt (UniqueViolation "processed_signatures_pkey")
  ∧ fst (markSignatureProcessed "S1" whale ledgerWithS1) ≠ Normal tt.
Proof.
  split; [left; reflexivity|]. split; [reflexivity|]. vm_compute. discriminate.
Qed.

Lemma markSignatureProcessed_duplicate_witness :
  markSignatureProcessed "S1" whale ledgerWithS1
  = (Abrupt (UniqueViolation "processed_signatures_pkey"), ledgerWithS1).
Proof.
  apply (markSignatureProcessed_duplicate_throws "S1" whale ledgerWithS1).
  simpl. left. reflexivity.
Defined.

Lemma isOpenFor_closeRow (walletAddress tokenMint : string) (data : SellTransactionData)
    (sellMs hold : Z) (pnl pct : float) (row : Position) :
  isOpenFor walletAddress tokenMint (closeRow data sellMs hold pnl pct row) = false.
Proof.
  unfold isOpenFor. simpl. apply andb_false_r.
Qed.

Lemma open_rows_after_close (walletAddress tokenMint : string) (target : nat)
    (data : SellTransactionData) (sellMs hold : Z) (pnl pct : float)
    (rows : list Position) :
  (length (List.filter (isOpenFor walletAddress tokenMint)
             (updateById target (closeRow data sellMs hold pnl pct) rows))
   ≤ length (List.filter (isOpenFor walletAddress tokenMint) rows))%nat.
Proof.
  induction rows as [|row rest IH]; simpl; [lia|].
  destruct (Nat.eqb (id row) target).
  - rewrite isOpenFor_closeRow.
    destruct (isOpenFor walletAddress tokenMint row); simpl; lia.
  - destruct (isOpenFor walletAddress tokenMint row); simpl; lia.
Qed.

Lemma countOpen_after_sell (walletAddress tokenMint : string)
    (data : SellTransactionData) (w : World) :
  (countOpen walletAddress tokenMint (applyOp w (RecordSell data))
   ≤ countOpen walletAddress tokenMint w)%nat.
Proof.
  unfold applyOp, countOpen. rewrite recordSellTransaction_eq.
  destruct (latestBuy _); simpl; [apply open_rows_after_close | lia].
Qed.

Lemma countOpen_after_guarded_buy (walletAddress tokenMint : string)
    (data : BuyTransactionData) (w : World) :
  countOpen (buyWalletAddress data) (buyTokenMint data) w = 0%nat →
  (countOpen walletAddress tokenMint w ≤ 1)%nat →
  (countOpen walletAddress tokenMint (applyOp w (RecordBuy data)) ≤ 1)%nat.
Proof.
  intros Hnone Hinv. unfold applyOp, recordBuyTransaction.
  destruct (existsb _ (positions w)); simpl; [exact Hinv|].
  unfold countOpen in *. simpl. rewrite List.filter_app, length_app. simpl.
  match goal with |- context [isOpenFor ?a ?b ?r] => destruct (isOpenFor a b r) eqn:E end.
  - apply isOpenFor_true in E as (Hw & Hm & _). simpl in Hw, Hm. subst.
    rewrite Hnone. simpl. lia.
  - simpl. lia.
Qed.

Lemma runOps_at_most_one_open (ops : list StoreOp) :
  ∀ w, buysWhenClosed ops w →
       (∀ walletAddress tokenMint, (countOpen walletAddress tokenMint w ≤ 1)%nat) →
       ∀ walletAddress tokenMint,
         (countOpen walletAddress tokenMint (runOps ops w) ≤ 1)%nat.
Proof.
  induction ops as [|op rest IH]; simpl; intros w Hguard Hinv walletAddress tokenMint.
  - apply Hinv.
  - destruct Hguard as [Hop Hrest]. apply IH; [exact Hrest|].
    intros wa tm. destruct op as [data|data].
    + apply countOpen_after_guarded_buy; [exact Hop | apply Hinv].
    + etransitivity; [apply countOpen_after_sell | apply Hinv].
Qed.

(** C1, as the specification states it, fails: two buys of the same pair
    with distinct signatures, recorded from the empty store, leave two open
    rows for the pair. *)
Lemma two_buys_leave_two_open_rows :
  countOpen whale bonk (runOps [RecordBuy firstBuy; RecordBuy secondBuy] emptyWorld) = 2%nat
  ∧ ¬ (countOpen whale bonk (runOps [RecordBuy firstBuy; RecordBuy secondBuy] emptyWorld)
       ≤ 1)%nat.
Proof.
  assert (H : countOpen whale bonk
                (runOps [RecordBuy firstBuy; RecordBuy secondBuy] emptyWorld) = 2%nat)
    by reflexivity.
  split; [exact H|]. rewrite H. lia.
Qed.

(** C1, as the code has it.  After any sequence of [recordBuyTransaction]
    and [recordSellTransaction] run from the empty store in which every buy
    is recorded while its pair has no open row, each pair has at most one
    row with [is_open = true].  (The code does not test this before an
    insert; the lookup of the open position takes the latest buy.) *)
Theorem at_most_one_open_when_buys_alternate (ops : list StoreOp) :
  buysWhenClosed ops emptyWorld →
  ∀ walletAddress tokenMint,
    (countOpen walletAddress tokenMint (runOps ops emptyWorld) ≤ 1)%nat.
Proof.
  intros Hguard. apply runOps_at_most_one_open; [exact Hguard|].
  intros wa tm. unfold countOpen. simpl. lia.
Qed.

Lemma at_most_one_open_witness :
  (countOpen whale bonk
     (runOps [RecordBuy firstBuy; RecordSell firstSell; RecordBuy secondBuy] emptyWorld)
   ≤ 1)%nat.
Proof.
  apply (at_most_one_open_when_buys_alternate
           [RecordBuy firstBuy; RecordSell firstSell; RecordBuy secondBuy]).
  vm_compute. repeat split.
Defined.

Lemma updateById_In (target : nat) (f : Position → Position)
    (rows : list Position) (row : Position) :
  (∀ old, id (f old) = id old) →
  In row (updateById target f rows) → id row = target →
  ∃ old, In old rows ∧ id old = target ∧ row = f old.
Proof.
  intros Hid Hin Hrow. unfold updateById in Hin.
  apply in_map_iff in Hin as (old & Heq & Hold).
  destruct (Nat.eqb (id old) target) eqn:E.
  - apply Nat.eqb_eq in E. exists old. repeat split; [exact Hold | exact E | symmetry; exact Heq].
  - apply Nat.eqb_neq in E. subst row. contradiction.
Qed.

Lemma updateById_hits (f : Position → Position) (rows : list Position) (old : Position) :
  In old rows → In (f old) (updateById (id old) f rows).
Proof.
  intros Hin. unfold updateById. apply in_map_iff. exists old.
  rewrite Nat.eqb_refl. split; [reflexivity | exact Hin].
Qed.

(** C6.  When the pair of a sell has an open position, [recordSellTransaction]
    returns normally and every row it writes (the rows with the identifier
    of that position, of which there is at least one) is closed and
    carries [profit_loss_usd = sellValueUsd - buyValueUsd] and
    [profit_loss_percent = (sellPriceUsd - buyPriceUsd) / buyPriceUsd * 100],
    computed in binary64.  With buyValueUsd = 25000, sellValueUsd = 35000,
    buyPriceUsd = 0.000025 and sellPriceUsd = 0.000035 the profit is 10000
    and the percentage prints, to two decimals, as 40.00. *)
Theorem recordSell_computes_profit_and_loss
    (data : SellTransactionData) (position : Position) (w : World) :
  getOpenPosition (sellWalletAddress data) (sellTokenMint data) w
    = (Normal (Some position), w) →
  ∃ w', recordSellTransaction data w = (Normal tt, w')
    ∧ (∃ row, In row (positions w') ∧ id row = id position)
    ∧ ∀ row, In row (positions w') → id row = id position →
        is_open row = false
        ∧ profit_loss_usd row = Some (sellValueUsd data - buy_value_usd position)%float
        ∧ profit_loss_percent row
          = Some ((sellPriceUsd data - buy_price_usd position)
                  / buy_price_usd position * 100)%float
        ∧ (buy_value_usd position = 25000%float →
           sellValueUsd data = 35000%float →
           buy_price_usd position = 0.000025%float →
           sellPriceUsd data = 0.000035%float →
           profit_loss_usd row = Some 10000%float
           ∧ profit_loss_percent row ≫= toFixed2 = Some "40.00").
Proof.
  intros Hopen. unfold getOpenPosition in Hopen. injection Hopen as Hlatest.
  rewrite recordSellTransaction_eq, Hlatest.
  eexists. split; [reflexivity|]. simpl. split.
  - exists (closeRow data (sellTimestamp data * 1000)
              ((sellTimestamp data * 1000 - buy_timestamp position) / 1000)
              (sellValueUsd data - buy_value_usd position)%float
              ((sellPriceUsd data - buy_price_usd position)
               / buy_price_usd position * 100)%float position).
    split; [|reflexivity].
    apply updateById_hits.
    apply latestBuy_In in Hlatest. apply filter_In in Hlatest as [Hin _]. exact Hin.
  - intros row Hin Hrow.
    apply updateById_In in Hin as (old & _ & _ & ->); [|reflexivity|exact Hrow].
    simpl. split; [reflexivity|]. split; [reflexivity|]. split; [reflexivity|].
    intros Hbv Hsv Hbp Hsp. rewrite Hbv, Hsv, Hbp, Hsp. split; reflexivity.
Qed.

Lemma recordSell_profit_and_loss_witness :
  ∃ w', recordSellTransaction firstSell afterFirstBuy = (Normal tt, w')
    ∧ ∃ row, In row (positions w')
        ∧ is_open row = false
        ∧ profit_loss_usd row = Some 10000%float
        ∧ profit_loss_percent row ≫= toFixed2 = Some "40.00".
Proof.
  destruct (recordSell_computes_profit_and_loss firstSell openedByFirstBuy afterFirstBuy)
    as (w' & Hrun & (row & Hin & Hid) & Hall).
  - vm_compute. reflexivity.
  - exists w'. split; [exact Hrun|]. exists row. split; [exact Hin|].
    destruct (Hall row Hin Hid) as (Hclosed & _ & _ & Hnumbers).
    split; [exact Hclosed|]. apply Hnumbers; reflexivity.
Defined.

(** ** Transfer classifier *)

Lemma getTokenCreationTime_normal (axios_get : string → option (list HeliusTransaction))
    (mintAddress : string) (w : World) :
  ∃ creationTime w',
    getTokenCreationTime axios_get mintAddress w = (Normal creationTime, w').
Proof.
  unfold getTokenCreationTime.
  destruct (tokenAgeCache w !! mintAddress); [eauto|].
  destruct (axios_get mintAddress) as [data|]; [|eauto].
  destruct (last data); eauto.
Qed.

Lemma parseSwapTransaction_eq (cfg : Config)
    (axios_get : string → option (list HeliusTransaction))
    (tx : HeliusTransaction) (walletAddress : string) (w : World) :
  String.eqb (txType tx) "SWAP" = true →
  transactionError tx = None →
  parseSwapTransaction cfg axios_get tx walletAddress w =
  match findTokenTransfer (tokenTransfers tx) walletAddress with
  | None => (Normal None, w)
  | Some (true, tokenTransfer) =>
      match getTokenCreationTime axios_get (mint tokenTransfer) w with
      | (Normal tokenCreationTime, w') =>
          match knownCreationTime tokenCreationTime with
          | Some creationTime =>
              if olderThanMaximum cfg tx creationTime
              then (Normal None, w')
              else (Normal (Some (parsedFrom tx walletAddress true tokenTransfer)), w')
          | None => (Normal (Some (parsedFrom tx walletAddress true tokenTransfer)), w')
          end
      | (Abrupt e, w') => (Abrupt e, w')
      end
  | Some (false, tokenTransfer) =>
      (Normal (Some (parsedFrom tx walletAddress false tokenTransfer)), w)
  end.
Proof.
  intros Hswap Herror. unfold parseSwapTransaction. rewrite Hswap, Herror. simpl.
  destruct (findTokenTransfer (tokenTransfers tx) walletAddress) as [[[|] tokenTransfer]|];
    try reflexivity.
  unfold mbind, Async_bind.
  destruct (getTokenCreationTime axios_get (mint tokenTransfer) w) as [[tokenCreationTime|e] w'];
    [|reflexivity].
  destruct (knownCreationTime tokenCreationTime) as [creationTime|]; [|reflexivity].
  unfold olderThanMaximum. destruct (_ <? _); reflexivity.
Qed.

Lemma findTokenTransfer_firstInvolving (tokenTransfers : list HeliusTokenTransfer)
    (walletAddress : string) :
  findTokenTransfer tokenTransfers walletAddress =
  match firstInvolving tokenTransfers walletAddress with
  | None => None
  | Some transfer => Some (sameAccount (toUserAccount transfer) walletAddress, transfer)
  end.
Proof.
  unfold firstInvolving.
  induction tokenTransfers as [|transfer rest IH]; simpl; [reflexivity|].
  destruct (String.eqb (mint transfer) WRAPPED_SOL); simpl; [exact IH|].
  destruct (sameAccount (toUserAccount transfer) walletAddress) eqn:Hto; simpl.
  - rewrite Hto. reflexivity.
  - destruct (sameAccount (fromUserAccount transfer) walletAddress); simpl;
      [rewrite Hto; reflexivity | exact IH].
Qed.

(** C4, as the specification states it, fails: no transfer of the swap has
    the whale as its receiving or sending account, the one transfer goes to
    an address that differs from the whale's in the case of a letter, and
    the classifier answers with a buy instead of [null]. *)
Lemma classifier_compares_accounts_ignoring_case :
  (∀ transfer, In transfer (tokenTransfers swapToOtherWallet) →
     toUserAccount transfer ≠ Some whale ∧ fromUserAccount transfer ≠ Some whale)
  ∧ fst (parseSwapTransaction defaultConfig lookupFails swapToOtherWallet whale emptyWorld)
    = Normal (Some (parsedFrom swapToOtherWallet whale true
                      {| fromUserAccount := Some pool; toUserAccount := Some otherWallet;
                         mint := bonk; tokenAmount := 1000000 |}))
  ∧ fst (parseSwapTransaction defaultConfig lookupFails swapToOtherWallet whale emptyWorld)
    ≠ Normal None.
Proof.
  split; [|split].
  - intros transfer [<-|[]]. simpl. split; intros [=].
  - vm_compute. reflexivity.
  - vm_compute. discriminate.
Qed.

(** C4, as the code has it.  [parseSwapTransaction] returns [null] when
    [tx.type] is not ['SWAP'] or [tx.transactionError] is set.  Otherwise it
    classifies on the first transfer, in source order, whose mint is not
    the wrapped-native mint and whose receiving or sending account is the
    wallet up to the case of letters.  When the receiving account matches,
    the result is a buy built on that transfer, except that it is [null]
    exactly when the age filter discards the buy; when only the sending
    account matches, the result is a sell built on that transfer; and it is
    [null] when there is no such transfer. *)
Theorem parseSwapTransaction_classifies_on_first_match (cfg : Config)
    (axios_get : string → option (list HeliusTransaction))
    (tx : HeliusTransaction) (walletAddress : string) (w : World) :
  let result := fst (parseSwapTransaction cfg axios_get tx walletAddress w) in
  if (negb (String.eqb (txType tx) "SWAP")
      || bool_decide (is_Some (transactionError tx)))%bool
  then result = Normal None
  else
    match firstInvolving (tokenTransfers tx) walletAddress with
    | None => result = Normal None
    | Some transfer =>
        if sameAccount (toUserAccount transfer) walletAddress
        then
          result
          = (if ageFilterDiscards cfg axios_get tx (mint transfer) w
             then Normal None
             else Normal (Some (parsedFrom tx walletAddress true transfer)))
        else result = Normal (Some (parsedFrom tx walletAddress false transfer))
    end.
Proof.
  intros result. subst result.
  destruct (String.eqb (txType tx) "SWAP") eqn:Hswap; simpl.
  2:{ unfold parseSwapTransaction. rewrite Hswap. reflexivity. }
  destruct (transactionError tx) as [e|] eqn:Herror; simpl.
  { unfold parseSwapTransaction. rewrite Hswap, Herror. reflexivity. }
  rewrite (parseSwapTransaction_eq _ _ _ _ _ Hswap Herror).
  rewrite findTokenTransfer_firstInvolving.
  destruct (firstInvolving (tokenTransfers tx) walletAddress) as [transfer|];
    [|reflexivity].
  destruct (sameAccount (toUserAccount transfer) walletAddress); [|reflexivity].
  unfold ageFilterDiscards.
  destruct (getTokenCreationTime_normal axios_get (mint transfer) w)
    as (tokenCreationTime & w' & ->).
  simpl. destruct (knownCreationTime tokenCreationTime) as [creationTime|];
    [|reflexivity].
  destruct (olderThanMaximum cfg tx creationTime); reflexivity.
Qed.

Lemma stablecoinValue_skips (transfer : HeliusTokenTransfer)
    (rest : list HeliusTokenTransfer) (walletAddress : string) (isBuy : bool) :
  stablecoinInDirection walletAddress isBuy transfer = false →
  stablecoinValue (transfer :: rest) walletAddress isBuy
  = stablecoinValue rest walletAddress isBuy.
Proof.
  unfold stablecoinInDirection. simpl.
  destruct (String.eqb (mint transfer) USDC_MINT || String.eqb (mint transfer) USDT_MINT)%bool;
    simpl; [|reflexivity].
  destruct isBuy; simpl; intros ->; reflexivity.
Qed.

Lemma stablecoinValue_takes (transfer : HeliusTokenTransfer)
    (rest : list HeliusTokenTransfer) (walletAddress : string) (isBuy : bool) :
  stablecoinInDirection walletAddress isBuy transfer = true →
  stablecoinValue (transfer :: rest) walletAddress isBuy = Some (tokenAmount transfer).
Proof.
  unfold stablecoinInDirection. simpl.
  destruct (String.eqb (mint transfer) USDC_MINT || String.eqb (mint transfer) USDT_MINT)%bool;
    simpl; [|discriminate].
  destruct isBuy; simpl; intros ->; reflexivity.
Qed.

Lemma stablecoinValue_first (before after : list HeliusTokenTransfer)
    (transfer : HeliusTokenTransfer) (walletAddress : string) (isBuy : bool) :
  stablecoinInDirection walletAddress isBuy transfer = true →
  (∀ earlier, In earlier before →
     stablecoinInDirection walletAddress isBuy earlier = false) →
  stablecoinValue (before ++ transfer :: after) walletAddress isBuy
  = Some (tokenAmount transfer).
Proof.
  intros Hhit. induction before as [|earlier before IH]; intros Hmiss.
  - apply stablecoinValue_takes. exact Hhit.
  - change ((earlier :: before) ++ transfer :: after)
      with (earlier :: (before ++ transfer :: after)).
    rewrite stablecoinValue_skips by (apply Hmiss; left; reflexivity).
    apply IH. intros e He. apply Hmiss. right. exact He.
Qed.

Lemma wrapped_sol_is_no_stablecoin (transfer : HeliusTokenTransfer) :
  String.eqb (mint transfer) WRAPPED_SOL = true →
  (String.eqb (mint transfer) USDC_MINT || String.eqb (mint transfer) USDT_MINT)%bool = false.
Proof.
  intros H. apply String.eqb_eq in H. rewrite H. reflexivity.
Qed.

Lemma stablecoinValue_without_wrapped_sol (tokenTransfers : list HeliusTokenTransfer)
    (walletAddress : string) (isBuy : bool) :
  stablecoinValue
    (List.filter (λ transfer, negb (String.eqb (mint transfer) WRAPPED_SOL)) tokenTransfers)
    walletAddress isBuy
  = stablecoinValue tokenTransfers walletAddress isBuy.
Proof.
  induction tokenTransfers as [|transfer rest IH]; [reflexivity|].
  cbn [List.filter].
  destruct (String.eqb (mint transfer) WRAPPED_SOL) eqn:Hsol; cbn [negb].
  - rewrite IH. cbn [stablecoinValue].
    rewrite (wrapped_sol_is_no_stablecoin _ Hsol). reflexivity.
  - cbn [stablecoinValue]. rewrite IH. reflexivity.
Qed.

Lemma floats_differ (x y : float) : Prim2SF x ≠ Prim2SF y → x ≠ y.
Proof. intros Hne ->. apply Hne. reflexivity. Qed.

(** C5, as the specification states it, fails.  In the first swap the
    whale is classified as the buyer, the transaction holds a wrapped-SOL
    transfer, and exactly one stablecoin transfer is sent by the whale, of
    25 USDC; the derived value is 7, the amount of an earlier USDC transfer
    whose sender differs from the whale in the case of a letter.  In the
    second swap the whale sends 10 USDC and then 15 USDT: the 15 USDT move
    in the buyer's direction, and the derived value is 10. *)
Lemma stablecoin_value_is_the_first_match :
  (∃ parsed,
     fst (parseSwapTransaction defaultConfig lookupFails buyBesideForeignUsdc whale
            emptyWorld) = Normal (Some parsed)
     ∧ parsedType parsed = buy
     ∧ (∃ wrapped, In wrapped (tokenTransfers buyBesideForeignUsdc)
                   ∧ mint wrapped = WRAPPED_SOL)
     ∧ In usdcOfWhale (tokenTransfers buyBesideForeignUsdc)
     ∧ mint usdcOfWhale = USDC_MINT
     ∧ fromUserAccount usdcOfWhale = Some whale
     ∧ (∀ transfer, In transfer (tokenTransfers buyBesideForeignUsdc) →
          mint transfer = USDC_MINT ∨ mint transfer = USDT_MINT →
          fromUserAccount transfer = Some whale → transfer = usdcOfWhale)
     ∧ parsedValueUsd parsed = 7%float
     ∧ parsedValueUsd parsed ≠ tokenAmount usdcOfWhale)
  ∧ (∃ parsed,
       fst (parseSwapTransaction defaultConfig lookupFails buyWithTwoStablecoins whale
              emptyWorld) = Normal (Some parsed)
       ∧ parsedType parsed = buy
       ∧ In usdtOfWhale (tokenTransfers buyWithTwoStablecoins)
       ∧ mint usdtOfWhale = USDT_MINT
       ∧ fromUserAccount usdtOfWhale = Some whale
       ∧ parsedValueUsd parsed = 10%float
       ∧ parsedValueUsd parsed ≠ tokenAmount usdtOfWhale).
Proof.
  split.
  - eexists. split; [vm_compute; reflexivity|]. split; [reflexivity|].
    split.
    { eexists. split; [right; left; reflexivity | reflexivity]. }
    split; [right; right; right; left; reflexivity|].
    split; [reflexivity|]. split; [reflexivity|]. split.
    { intros transfer [<-|[<-|[<-|[<-|[]]]]] Hmint Hfrom;
        first [reflexivity | discriminate | destruct Hmint; discriminate]. }
    split; [reflexivity|].
    apply floats_differ. vm_compute. discriminate.
  - eexists. split; [vm_compute; reflexivity|]. split; [reflexivity|].
    split; [right; right; right; left; reflexivity|].
    split; [reflexivity|]. split; [reflexivity|]. split; [reflexivity|].
    apply floats_differ. vm_compute. discriminate.
Qed.

(** C5, as the code has it.  When the token transfers hold a USDC or USDT
    transfer that the wallet sends (for a buy) or receives (for a sell),
    the wallet being recognised up to the case of letters as everywhere in
    the classifier, the USD value is the amount of the first such transfer
    in source order, exactly, whatever wrapped-native transfers stand
    before or after it: the value is the same for any native transfers and
    after every wrapped-native transfer is taken out of the list, so the
    native-asset estimate has no part in it. *)
Theorem calculateUSDValue_stablecoin_priority
    (before after : list HeliusTokenTransfer) (transfer : HeliusTokenTransfer)
    (nativeTransfers : list HeliusNativeTransfer) (walletAddress : string) (isBuy : bool) :
  stablecoinInDirection walletAddress isBuy transfer = true →
  (∀ earlier, In earlier before →
     stablecoinInDirection walletAddress isBuy earlier = false) →
  calculateUSDValue (before ++ transfer :: after) nativeTransfers walletAddress isBuy
  = tokenAmount transfer
  ∧ ∀ otherNativeTransfers,
      calculateUSDValue
        (List.filter (λ t, negb (String.eqb (mint t) WRAPPED_SOL))
           (before ++ transfer :: after))
        otherNativeTransfers walletAddress isBuy
      = tokenAmount transfer.
Proof.
  intros Hhit Hmiss. unfold calculateUSDValue.
  split; [|intros otherNativeTransfers; rewrite stablecoinValue_without_wrapped_sol];
    rewrite (stablecoinValue_first _ _ _ _ _ Hhit Hmiss); reflexivity.
Qed.

Lemma calculateUSDValue_stablecoin_priority_witness :
  calculateUSDValue (tokenTransfers buyWithUsdc) (nativeTransfers buyWithUsdc) whale true
  = 25%float.
Proof.
  apply (calculateUSDValue_stablecoin_priority
           [ {| fromUserAccount := Some pool; toUserAccount := Some whale;
                mint := bonk; tokenAmount := 1000000 |};
             {| fromUserAccount := Some whale; toUserAccount := Some pool;
                mint := WRAPPED_SOL; tokenAmount := 0.25 |} ]
           []
           {| fromUserAccount := Some whale; toUserAccount := Some pool;
              mint := USDC_MINT; tokenAmount := 25 |}
           [] whale true).
  - reflexivity.
  - simpl. intros earlier [<-|[<-|[]]]; reflexivity.
Defined.

Lemma division_by_zero (x y : float) (s : bool) :
  Prim2SF y = S754_zero s →
  Prim2SF (x / y) = S754_nan ∨ ∃ s', Prim2SF (x / y) = S754_infinity s'.
Proof.
  intros Hzero. rewrite FloatAxioms.div_spec, Hzero. unfold SF64div, SFdiv.
  destruct (Prim2SF x); eauto.
Qed.

(** C7, as the specification states it, fails: the whale receives a token
    transfer of amount 0 and pays 25 USDC, and the price of the classified
    buy is the quotient 25 / 0 itself, positive infinity, neither 0 nor an
    absent value. *)
Lemma price_of_zero_amount_is_infinite :
  ∃ parsed,
    fst (parseSwapTransaction defaultConfig lookupFails buyOfZeroAmount whale emptyWorld)
      = Normal (Some parsed)
    ∧ parsedType parsed = buy
    ∧ parsedAmount parsed = 0%float
    ∧ parsedValueUsd parsed = 25%float
    ∧ parsedPriceUsd parsed = (25 / 0)%float
    ∧ parsedPriceUsd parsed = infinity
    ∧ parsedPriceUsd parsed ≠ 0%float.
Proof.
  eexists. split; [vm_compute; reflexivity|]. simpl.
  repeat (split; [reflexivity|]).
  intros H. apply (f_equal Prim2SF) in H. vm_compute in H. discriminate.
Qed.

(** C7, as the code has it.  For a swap whose classified transfer has the
    amount 0 the classifier throws nothing.  The result is [null] exactly
    when the transfer is a buy and the age filter discards it; otherwise
    the transfer is returned, classified, with its USD value and with the
    price [valueUsd / transferAmount] computed without a guard, which for a
    zero divisor is an infinity or NaN. *)
Theorem price_is_the_unguarded_quotient (cfg : Config)
    (axios_get : string → option (list HeliusTransaction))
    (tx : HeliusTransaction) (walletAddress : string) (w : World)
    (isBuy : bool) (transfer : HeliusTokenTransfer) (s : bool) :
  String.eqb (txType tx) "SWAP" = true →
  transactionError tx = None →
  findTokenTransfer (tokenTransfers tx) walletAddress = Some (isBuy, transfer) →
  Prim2SF (tokenAmount transfer) = S754_zero s →
  let result := fst (parseSwapTransaction cfg axios_get tx walletAddress w) in
  if (isBuy && ageFilterDiscards cfg axios_get tx (mint transfer) w)%bool
  then result = Normal None
  else
    ∃ parsed,
      result = Normal (Some parsed)
      ∧ parsedType parsed = (if isBuy then buy else sell)
      ∧ parsedAmount parsed = tokenAmount transfer
      ∧ parsedValueUsd parsed
        = calculateUSDValue (tokenTransfers tx) (nativeTransfers tx) walletAddress isBuy
      ∧ parsedPriceUsd parsed = (parsedValueUsd parsed / tokenAmount transfer)%float
      ∧ (Prim2SF (parsedPriceUsd parsed) = S754_nan
         ∨ ∃ s', Prim2SF (parsedPriceUsd parsed) = S754_infinity s').
Proof.
  intros Hswap Herror Hfind Hzero result. subst result.
  rewrite (parseSwapTransaction_eq _ _ _ _ _ Hswap Herror), Hfind.
  assert (Hparsed : ∀ w' : World,
    ∃ parsed,
      fst (Normal (Some (parsedFrom tx walletAddress isBuy transfer)), w')
        = Normal (Some parsed)
      ∧ parsedType parsed = (if isBuy then buy else sell)
      ∧ parsedAmount parsed = tokenAmount transfer
      ∧ parsedValueUsd parsed
        = calculateUSDValue (tokenTransfers tx) (nativeTransfers tx) walletAddress isBuy
      ∧ parsedPriceUsd parsed = (parsedValueUsd parsed / tokenAmount transfer)%float
      ∧ (Prim2SF (parsedPriceUsd parsed) = S754_nan
         ∨ ∃ s', Prim2SF (parsedPriceUsd parsed) = S754_infinity s')).
  { intros w'. eexists. split; [reflexivity|]. simpl.
    repeat (split; [reflexivity|]). eapply division_by_zero. exact Hzero. }
  destruct isBuy; simpl; [|exact (Hparsed w)].
  unfold ageFilterDiscards.
  destruct (getTokenCreationTime_normal axios_get (mint transfer) w)
    as (tokenCreationTime & w' & ->).
  simpl. destruct (knownCreationTime tokenCreationTime) as [creationTime|];
    [|exact (Hparsed w')].
  destruct (olderThanMaximum cfg tx creationTime); [reflexivity | exact (Hparsed w')].
Qed.

Lemma price_is_the_unguarded_quotient_witness :
  ∃ parsed,
    fst (parseSwapTransaction defaultConfig lookupFails buyOfZeroAmount whale emptyWorld)
      = Normal (Some parsed)
    ∧ parsedPriceUsd parsed = (parsedValueUsd parsed / 0)%float
    ∧ (Prim2SF (parsedPriceUsd parsed) = S754_nan
       ∨ ∃ s', Prim2SF (parsedPriceUsd parsed) = S754_infinity s').
Proof.
  pose proof (price_is_the_unguarded_quotient defaultConfig lookupFails buyOfZeroAmount
                whale emptyWorld true
                {| fromUserAccount := Some pool; toUserAccount := Some whale;
                   mint := bonk; tokenAmount := 0 |} false
                eq_refl eq_refl eq_refl eq_refl) as H.
  cbv zeta in H.
  match type of H with
  | if ?discards then _ else _ => change discards with false in H
  end.
  cbv iota in H.
  destruct H as (parsed & Hresult & _ & _ & _ & Hprice & Hshape).
  exists parsed. split; [exact Hresult|]. split; [exact Hprice | exact Hshape].
Defined.

(** The age filter discards exactly when the lookup answers with a
    creation time other than 0 that lies [MAX_TOKEN_AGE_MINUTES + 1] whole
    minutes or more before the transaction. *)
Lemma ageFilterDiscards_iff (cfg : Config)
    (axios_get : string → option (list HeliusTransaction))
    (tx : HeliusTransaction) (mintAddress : string) (w : World) :
  ageFilterDiscards cfg axios_get tx mintAddress w = true ↔
  ∃ creationTime,
    fst (getTokenCreationTime axios_get mintAddress w) = Normal (Some creationTime)
    ∧ creationTime ≠ 0
    ∧ (MAX_TOKEN_AGE_MINUTES cfg + 1) * 60 ≤ txTimestamp tx - creationTime.
Proof.
  unfold ageFilterDiscards, olderThanMaximum.
  destruct (fst (getTokenCreationTime axios_get mintAddress w)) as [[creationTime|]|e];
    simpl.
  - destruct (Z.eqb_spec creationTime 0) as [->|Hne].
    + split; [discriminate|]. intros (c & [= <-] & Hc & _). contradiction.
    + rewrite Z.ltb_lt.
      pose proof (Z.div_mod (txTimestamp tx - creationTime) 60 ltac:(lia)) as Hdiv.
      pose proof (Z.mod_pos_bound (txTimestamp tx - creationTime) 60 ltac:(lia)) as Hmod.
      split.
      * intros H. exists creationTime. repeat split; [exact Hne | lia].
      * intros (c & [= <-] & _ & H). lia.
  - split; [discriminate | intros (c & [=] & _)].
  - split; [discriminate | intros (c & [=] & _)].
Qed.

(** The age test passes exactly from [MAX_TOKEN_AGE_MINUTES + 1] whole
    minutes on. *)
Lemma olderThanMaximum_threshold (cfg : Config) (tx : HeliusTransaction) (creationTime : Z) :
  olderThanMaximum cfg tx creationTime = true ↔
  (MAX_TOKEN_AGE_MINUTES cfg + 1) * 60 ≤ txTimestamp tx - creationTime.
Proof.
  unfold olderThanMaximum. rewrite Z.ltb_lt.
  pose proof (Z.div_mod (txTimestamp tx - creationTime) 60 ltac:(lia)) as Hdiv.
  pose proof (Z.mod_pos_bound (txTimestamp tx - creationTime) 60 ltac:(lia)) as Hmod.
  split; intros H; lia.
Qed.

(** A buy whose creation time is unknown (the lookup fails, answers with
    nothing, or answers 0) passes the filter. *)
Lemma buy_of_unknown_age_passes (cfg : Config)
    (axios_get : string → option (list HeliusTransaction))
    (tx : HeliusTransaction) (walletAddress : string) (w : World)
    (transfer : HeliusTokenTransfer) :
  String.eqb (txType tx) "SWAP" = true →
  transactionError tx = None →
  findTokenTransfer (tokenTransfers tx) walletAddress = Some (true, transfer) →
  (∀ creationTime,
     fst (getTokenCreationTime axios_get (mint transfer) w) ≠ Normal (Some creationTime)
     ∨ creationTime = 0) →
  fst (parseSwapTransaction cfg axios_get tx walletAddress w)
  = Normal (Some (parsedFrom tx walletAddress true transfer)).
Proof.
  intros Hswap Herror Hfind Hunknown.
  rewrite (parseSwapTransaction_eq _ _ _ _ _ Hswap Herror), Hfind.
  destruct (getTokenCreationTime axios_get (mint transfer) w)
    as [[[creationTime|]|e] w'] eqn:E; [|reflexivity|].
  - destruct (Hunknown creationTime) as [Hne | ->]; [|reflexivity].
    exfalso. apply Hne. reflexivity.
  - destruct (getTokenCreationTime_normal axios_get (mint transfer) w) as (c & w'' & E').
    rewrite E in E'. discriminate.
Qed.

(** A sell is returned whatever the age of its token. *)
Lemma sell_is_never_age_filtered (cfg : Config)
    (axios_get : string → option (list HeliusTransaction))
    (tx : HeliusTransaction) (walletAddress : string) (w : World)
    (transfer : HeliusTokenTransfer) :
  String.eqb (txType tx) "SWAP" = true →
  transactionError tx = None →
  findTokenTransfer (tokenTransfers tx) walletAddress = Some (false, transfer) →
  parseSwapTransaction cfg axios_get tx walletAddress w
  = (Normal (Some (parsedFrom tx walletAddress false transfer)), w).
Proof.
  intros Hswap Herror Hfind.
  rewrite (parseSwapTransaction_eq _ _ _ _ _ Hswap Herror), Hfind. reflexivity.
Qed.

(** C8 at a buy of a token whose creation time is known and lies 3630
    seconds back, with the maximum age at its default of 60 minutes: the
    age exceeds the maximum, and the classifier returns the buy. *)
Theorem buy_of_token_past_maximum_age_is_returned :
  fst (getTokenCreationTime lookupCreatedAt1700000000 bonk emptyWorld)
    = Normal (Some 1700000000)
  ∧ txTimestamp buyOfHourOldToken - 1700000000 = 3630
  ∧ MAX_TOKEN_AGE_MINUTES defaultConfig * 60 < txTimestamp buyOfHourOldToken - 1700000000
  ∧ ∃ parsed,
      fst (parseSwapTransaction defaultConfig lookupCreatedAt1700000000
             buyOfHourOldToken whale emptyWorld)
        = Normal (Some parsed)
      ∧ parsedType parsed = buy
      ∧ parsedTokenMint parsed = bonk.
Proof.
  split; [reflexivity|]. split; [reflexivity|]. split; [reflexivity|].
  eexists. split; [vm_compute; reflexivity|]. split; reflexivity.
Qed.

(** ** Poll loop *)

Lemma processLoop_walked (cfg : Config)
    (axios_get : string → option (list HeliusTransaction))
    (lastProcessed : option string) (walletAddress : string)
    (walletLabel : option string) (reversedTxs : list HeliusTransaction) :
  processLoop cfg axios_get lastProcessed walletAddress walletLabel reversedTxs
  = handleAll cfg axios_get walletAddress walletLabel (walked lastProcessed reversedTxs).
Proof.
  induction reversedTxs as [|tx rest IH]; simpl; [reflexivity|].
  destruct (reachedLastProcessed lastProcessed tx); simpl; [reflexivity|].
  rewrite IH. reflexivity.
Qed.

(** In chronological order the loop handles the transactions that stand
    before the watermark, the older ones, and nothing from the watermark
    on. *)
Lemma walked_stops_at_watermark (s : string)
    (older newer : list HeliusTransaction) (marked : HeliusTransaction) :
  s ≠ EmptyString →
  txSignature marked = s →
  (∀ tx, In tx older → txSignature tx ≠ s) →
  walked (Some s) (older ++ marked :: newer) = older.
Proof.
  intros Hset Hmarked Hfresh.
  assert (Hs : String.eqb s EmptyString = false) by (apply String.eqb_neq; exact Hset).
  induction older as [|tx older IH]; simpl.
  - rewrite Hs, Hmarked, String.eqb_refl. reflexivity.
  - rewrite Hs. simpl.
    assert (Htx : String.eqb (txSignature tx) s = false)
      by (apply String.eqb_neq; apply Hfresh; left; reflexivity).
    rewrite Htx. f_equal. apply IH. intros t Ht. apply Hfresh. right. exact Ht.
Qed.

(** When the loop completes normally on a batch that is not empty, the
    watermark of the wallet becomes the signature at index 0. *)
Lemma processWallet_sets_watermark (cfg : Config)
    (axios_get : string → option (list HeliusTransaction))
    (newest : HeliusTransaction) (rest : list HeliusTransaction)
    (walletAddress : string) (walletLabel : option string) (w w' : World) :
  processLoop cfg axios_get (lastProcessedSignatures w !! walletAddress)
    walletAddress walletLabel (rev (newest :: rest)) w = (Normal tt, w') →
  lastProcessedSignatures
    (snd (processWallet cfg axios_get (Some (newest :: rest)) walletAddress walletLabel w))
    !! walletAddress
  = Some (txSignature newest).
Proof.
  intros Hloop.
  unfold processWallet, tryCatch, mbind, Async_bind, mret, Async_ret, getWorld, putWorld.
  rewrite Hloop. simpl. apply lookup_insert_eq.
Qed.

Lemma strictlyNewer_walked (lastSeen : option string) (batch : list HeliusTransaction) :
  strictlyNewer lastSeen batch = walked lastSeen batch.
Proof.
  induction batch as [|tx older IH]; simpl; [reflexivity|].
  destruct (reachedLastProcessed lastSeen tx); [reflexivity|]. rewrite IH. reflexivity.
Qed.

(** For a batch, newest first, that holds the watermark once: the
    specification's walk handles the transactions ahead of it, the loop of
    [processWallet] those behind it. *)
Lemma loop_handles_the_older_transactions (s : string)
    (newer older : list HeliusTransaction) (marked : HeliusTransaction) :
  s ≠ EmptyString →
  txSignature marked = s →
  (∀ tx, In tx newer → txSignature tx ≠ s) →
  (∀ tx, In tx older → txSignature tx ≠ s) →
  strictlyNewer (Some s) (newer ++ marked :: older) = newer
  ∧ walked (Some s) (rev (newer ++ marked :: older)) = rev older.
Proof.
  intros Hset Hmarked Hnewer Holder. split.
  - rewrite strictlyNewer_walked. apply walked_stops_at_watermark; assumption.
  - rewrite rev_app_distr. simpl. rewrite <- app_assoc. simpl.
    apply walked_stops_at_watermark; [assumption | assumption |].
    intros tx Htx. apply Holder. apply in_rev. exact Htx.
Qed.

(** C2 at two polls of the whale.  After the first poll the watermark is
    [S1].  The second batch, newest first, is [S7; S1]: [S7] is strictly
    newer than the watermark, yet the walk of the reversed batch handles
    nothing, no table and no outbox changes, and the watermark moves on to
    [S7]; a third poll of the same batch does not handle [S7] either. *)
Theorem second_poll_skips_the_newer_transaction :
  lastProcessedSignatures afterFirstPoll !! whale = Some "S1"
  ∧ strictlyNewer (Some "S1") [laterBuy; buyWithUsdc] = [laterBuy]
  ∧ walked (Some "S1") (rev [laterBuy; buyWithUsdc]) = []
  ∧ positions afterSecondPoll = positions afterFirstPoll
  ∧ processed_signatures afterSecondPoll = processed_signatures afterFirstPoll
  ∧ sent afterSecondPoll = sent afterFirstPoll
  ∧ lastProcessedSignatures afterSecondPoll !! whale = Some "S7"
  ∧ map ps_signature (processed_signatures afterThirdPoll) = ["S1"]
  ∧ map buy_signature (positions afterThirdPoll) = ["S1"].
Proof.
  repeat split; vm_compute; reflexivity.
Qed.

(** The round trip of the README through the loop body: a buy for 25 USDC
    opens a position and is not announced (25 is below the threshold); the
    sell for 35 USDC closes it and is announced with the profit 10, the
    percentage 40.00 and the hold time 187200 seconds. *)
Lemma round_trip_through_the_pipeline :
  map is_open (positions afterRoundTrip) = [false]
  ∧ map ps_signature (processed_signatures afterRoundTrip) = ["S1"; "S8"]
  ∧ ∃ alert,
      sent afterRoundTrip = [SellAlert alert]
      ∧ snProfitLossUsd alert = 10%float
      ∧ toFixed2 (snProfitLossPercent alert) = Some "40.00"
      ∧ snHoldDurationSeconds alert = 187200.
Proof.
  split; [vm_compute; reflexivity|]. split; [vm_compute; reflexivity|].
  eexists. split; [vm_compute; reflexivity|].
  repeat split; vm_compute; reflexivity.
Qed.

(** ** Display helpers, logger and environment check *)

(** X1.  Whatever [LOG_LEVEL] holds, a debug line is never printed: the
    level 0 of ["debug"] is falsy and gives way to the default.  The levels
    are ordered: where info lines are printed so are warnings, and where
    warnings are printed so are errors. *)
Theorem debug_is_never_logged (LOG_LEVEL : string) :
  shouldLog LOG_LEVEL DEBUG = false
  ∧ (shouldLog LOG_LEVEL INFO = true → shouldLog LOG_LEVEL WARN = true)
  ∧ (shouldLog LOG_LEVEL WARN = true → shouldLog LOG_LEVEL ERROR = true)
  ∧ ∀ level, shouldLog "debug" level = shouldLog "info" level.
Proof.
  unfold shouldLog, currentLevel.
  destruct (levelMap (toLowerCase LOG_LEVEL)) as [[]| |]; simpl;
    repeat split; try discriminate; intros level; destruct level; reflexivity.
Qed.

Lemma filter_nil_iff {A : Type} (f : A → bool) (items : list A) :
  List.filter f items = [] ↔ ∀ item, In item items → f item = false.
Proof.
  induction items as [|item rest IH]; simpl.
  - split; [intros _ x [] | reflexivity].
  - destruct (f item) eqn:E.
    + split; [discriminate|]. intros H. rewrite (H item) in E; [discriminate|].
      left; reflexivity.
    + rewrite IH. split.
      * intros H x [<-|Hx]; [exact E | apply H; exact Hx].
      * intros H x Hx. apply H. right. exact Hx.
Qed.

(** X2.  [validateEnvVariables] returns without throwing exactly when each
    of the five required variables is set to a string that is not
    empty. *)
Theorem validateEnvVariables_passes_iff (env : gmap string string) :
  validateEnvVariables env = None ↔
  ∀ key, In key requiredVariables → ∃ value, env !! key = Some value ∧ value ≠ EmptyString.
Proof.
  unfold validateEnvVariables.
  assert (Hset : ∀ key, isUnset env key = false ↔
                        ∃ value, env !! key = Some value ∧ value ≠ EmptyString).
  { intros key. unfold isUnset. destruct (env !! key) as [value|].
    - rewrite String.eqb_neq. split.
      + intros H. exists value. split; [reflexivity | exact H].
      + intros (v & [= <-] & H). exact H.
    - split; [discriminate | intros (v & [=] & _)]. }
  destruct (List.filter (isUnset env) requiredVariables) as [|first rest] eqn:E.
  - split; [|reflexivity]. intros _ key Hkey. apply Hset.
    apply (proj1 (filter_nil_iff _ _) E). exact Hkey.
  - split; [discriminate|]. intros Hall. exfalso.
    assert (Hnil : List.filter (isUnset env) requiredVariables = []).
    { apply filter_nil_iff. intros key Hkey. apply Hset. apply Hall. exact Hkey. }
    rewrite Hnil in E. discriminate.
Qed.

(** X3.  From one minute on, the printed hold time depends on the whole
    minutes only, and from one day on, on the whole hours only: seconds,
    and then minutes, are dropped and not rounded. *)
Theorem formatHoldDuration_truncates (seconds : Z) :
  60 ≤ seconds →
  formatHoldDuration seconds = formatHoldDuration (60 * (seconds / 60))
  ∧ (86400 ≤ seconds →
     formatHoldDuration seconds = formatHoldDuration (3600 * (seconds / 3600))).
Proof.
  intros Hminute.
  assert (Hq : 1 ≤ seconds / 60) by (apply Z.div_le_lower_bound; lia).
  split.
  - unfold formatHoldDuration.
    replace (60 * (seconds / 60) / 60) with (seconds / 60)
      by (rewrite Z.mul_comm, Z.div_mul; lia).
    destruct (Z.ltb_spec seconds 60); [lia|].
    destruct (Z.ltb_spec (60 * (seconds / 60)) 60); [lia|]. reflexivity.
  - intros Hday.
    assert (Hh : 24 ≤ seconds / 3600) by (apply Z.div_le_lower_bound; lia).
    assert (Hm : 1440 ≤ seconds / 60) by (apply Z.div_le_lower_bound; lia).
    assert (Hhours : seconds / 60 / 60 = seconds / 3600)
      by (rewrite Z.div_div; [reflexivity | lia | lia]).
    assert (Hminutes : 3600 * (seconds / 3600) / 60 = 60 * (seconds / 3600)).
    { replace (3600 * (seconds / 3600)) with (60 * (seconds / 3600) * 60) by lia.
      apply Z.div_mul. lia. }
    assert (Hhours' : 60 * (seconds / 3600) / 60 = seconds / 3600)
      by (rewrite Z.mul_comm, Z.div_mul; lia).
    unfold formatHoldDuration. rewrite Hminutes, Hhours, Hhours'.
    destruct (Z.ltb_spec seconds 60); [lia|].
    destruct (Z.ltb_spec (3600 * (seconds / 3600)) 60); [lia|].
    destruct (Z.ltb_spec (seconds / 60) 60); [lia|].
    destruct (Z.ltb_spec (60 * (seconds / 3600)) 60); [lia|].
    destruct (Z.ltb_spec (seconds / 3600) 24); [lia|]. reflexivity.
Qed.

Lemma formatHoldDuration_truncates_witness :
  formatHoldDuration 187259 = formatHoldDuration 187200.
Proof.
  apply (formatHoldDuration_truncates 187259); lia.
Defined.

Lemma not_at_least_zero (amount : float) :
  PrimFloat.leb 0 amount = false →
  Prim2SF amount = S754_nan
  ∨ Prim2SF amount = S754_infinity true
  ∨ ∃ m e, Prim2SF amount = S754_finite true m e.
Proof.
  rewrite FloatAxioms.leb_spec. unfold SFleb.
  change (Prim2SF 0) with (S754_zero false).
  destruct (Prim2SF amount) as [s|[|]| |[|] m e]; simpl; try discriminate; eauto.
Qed.

Lemma below_positive_threshold (threshold amount : float) (m : positive) (e : Z) :
  Prim2SF threshold = S754_finite false m e →
  PrimFloat.leb 0 amount = false →
  PrimFloat.leb threshold amount = false.
Proof.
  intros Hthreshold Hneg. rewrite FloatAxioms.leb_spec, Hthreshold. unfold SFleb.
  destruct (not_at_least_zero amount Hneg) as [-> | [-> | (m' & e' & ->)]]; reflexivity.
Qed.

(** X4.  An amount that is not [>= 0] (a negative amount, such as a loss,
    or NaN) is printed by [formatUSD] without the K or M suffix, in full:
    ["$"] followed by [toFixed (2)] of the amount. *)
Theorem formatUSD_abbreviates_no_loss (amount : float) :
  PrimFloat.leb 0 amount = false →
  formatUSD amount = (digits ← toFixed2 amount; Some ("$" +:+ digits)).
Proof.
  intros Hneg. unfold formatUSD.
  rewrite (below_positive_threshold 1000000 amount 8589934592000000 (-33)
             ltac:(reflexivity) Hneg).
  rewrite (below_positive_threshold 1000 amount 8796093022208000 (-43)
             ltac:(reflexivity) Hneg).
  reflexivity.
Qed.

Lemma formatUSD_abbreviates_no_loss_witness :
  formatUSD (-10000)%float = Some "$-10000.00".
Proof.
  rewrite (formatUSD_abbreviates_no_loss (-10000)%float); reflexivity.
Defined.

(** ** Ledger and position store: round trips and invariants *)

Lemma existsb_false_filter {A : Type} (f : A → bool) (items : list A) :
  existsb f items = false → List.filter f items = [].
Proof.
  induction items as [|item rest IH]; simpl; [reflexivity|].
  destruct (f item); simpl; [discriminate | exact IH].
Qed.

(** X5.  Insert and lookup of the ledger: once [markSignatureProcessed]
    has returned normally for a signature, [isSignatureProcessed] answers
    [true] for it, and its answer for every other signature is what it was
    before. *)
Theorem marked_signature_is_processed
    (signature walletAddress : string) (w w' : World) :
  markSignatureProcessed signature walletAddress w = (Normal tt, w') →
  isSignatureProcessed signature w' = (Normal true, w')
  ∧ ∀ other, other ≠ signature →
      fst (isSignatureProcessed other w') = fst (isSignatureProcessed other w).
Proof.
  unfold markSignatureProcessed.
  destruct (existsb _ (processed_signatures w)) eqn:E; [discriminate|].
  intros [= <-]. apply existsb_false_filter in E.
  unfold isSignatureProcessed. simpl. split.
  - rewrite List.filter_app, E. simpl. rewrite String.eqb_refl. reflexivity.
  - intros other Hother. rewrite List.filter_app. simpl.
    assert (Hne : String.eqb signature other = false)
      by (apply String.eqb_neq; intros ->; apply Hother; reflexivity).
    rewrite Hne, app_nil_r.
    destruct (List.filter (λ row, String.eqb (ps_signature row) other)
                (processed_signatures w)) as [|? [|? ?]]; reflexivity.
Qed.

Lemma marked_signature_is_processed_witness :
  isSignatureProcessed "S1" ledgerWithS1 = (Normal true, ledgerWithS1).
Proof.
  apply (marked_signature_is_processed "S1" whale emptyWorld ledgerWithS1).
  reflexivity.
Defined.

Lemma latestBuy_None (rows : list Position) : latestBuy rows = None → rows = [].
Proof.
  destruct rows as [|row rest]; [reflexivity|]. simpl.
  destruct (latestBuy rest); [destruct (_ <=? _)|]; discriminate.
Qed.

(** X6.  What [getOpenPosition] answers.  It answers [null] exactly when
    the pair has no open row.  A row it answers with is a row of the table,
    belongs to the pair, is open, and no open row of the pair has a later
    buy. *)
Theorem getOpenPosition_answer (walletAddress tokenMint : string) (w : World) :
  (getOpenPosition walletAddress tokenMint w = (Normal None, w)
   ↔ countOpen walletAddress tokenMint w = 0%nat)
  ∧ ∀ position,
      getOpenPosition walletAddress tokenMint w = (Normal (Some position), w) →
      In position (positions w)
      ∧ wallet_address position = walletAddress
      ∧ token_mint position = tokenMint
      ∧ is_open position = true
      ∧ ∀ row, In row (positions w) →
          isOpenFor walletAddress tokenMint row = true →
          buy_timestamp row ≤ buy_timestamp position.
Proof.
  unfold getOpenPosition, countOpen. split.
  - split.
    + intros [= H]. apply latestBuy_None in H. rewrite H. reflexivity.
    + intros H. apply nil_length_inv in H. rewrite H. reflexivity.
  - intros position [= H].
    pose proof (latestBuy_In _ _ H) as Hin.
    apply filter_In in Hin as [Hin Hopen].
    apply isOpenFor_true in Hopen as (Hw & Hm & Ho).
    repeat split; try assumption.
    intros row Hrow Hrowopen. apply (latestBuy_is_latest _ _ H).
    apply filter_In. split; assumption.
Qed.

Lemma freshId_bound (rows : list Position) (row : Position) :
  In row rows → (id row < freshId rows)%nat.
Proof.
  unfold freshId. induction rows as [|first rest IH]; simpl; [contradiction|].
  intros [<-|Hin]; [lia|]. specialize (IH Hin). lia.
Qed.

Lemma map_id_updateById (target : nat) (f : Position → Position) (rows : list Position) :
  (∀ row, id (f row) = id row) →
  map id (updateById target f rows) = map id rows.
Proof.
  intros Hf. unfold updateById. rewrite map_map. apply map_ext.
  intros row. destruct (Nat.eqb (id row) target); [apply Hf | reflexivity].
Qed.

Lemma map_buy_signature_updateById (target : nat) (f : Position → Position)
    (rows : list Position) :
  (∀ row, buy_signature (f row) = buy_signature row) →
  map buy_signature (updateById target f rows) = map buy_signature rows.
Proof.
  intros Hf. unfold updateById. rewrite map_map. apply map_ext.
  intros row. destruct (Nat.eqb (id row) target); [apply Hf | reflexivity].
Qed.

Lemma NoDup_snoc {A : Type} (items : list A) (item : A) :
  List.NoDup items → ¬ In item items → List.NoDup (items ++ [item]).
Proof.
  intros Hitems Hfresh. apply List.NoDup_app; [exact Hitems | |].
  - constructor; [intros [] | constructor].
  - intros a Ha [<-|[]]. apply Hfresh. exact Ha.
Qed.

Lemma applyOp_keeps_keys (w : World) (op : StoreOp) :
  List.NoDup (map id (positions w)) ∧ List.NoDup (map buy_signature (positions w)) →
  List.NoDup (map id (positions (applyOp w op)))
  ∧ List.NoDup (map buy_signature (positions (applyOp w op))).
Proof.
  intros [Hid Hsig]. destruct op as [data|data]; unfold applyOp.
  - unfold recordBuyTransaction.
    destruct (existsb _ (positions w)) eqn:E; simpl; [split; assumption|].
    rewrite !map_app. simpl. split; apply NoDup_snoc; try assumption.
    + intros Hin. apply in_map_iff in Hin as (row & Hrow & Hin).
      apply freshId_bound in Hin. lia.
    + intros Hin. apply in_map_iff in Hin as (row & Hrow & Hin).
      assert (Hex : existsb (λ row, String.eqb (buy_signature row) (buySignature data))
                      (positions w) = true).
      { apply existsb_exists. exists row. split; [exact Hin|].
        apply String.eqb_eq. exact Hrow. }
      rewrite Hex in E. discriminate.
  - rewrite recordSellTransaction_eq. destruct (latestBuy _); simpl; [|split; assumption].
    rewrite map_id_updateById, map_buy_signature_updateById by reflexivity.
    split; assumption.
Qed.

Lemma runOps_invariant (P : World → Prop) :
  (∀ w op, P w → P (applyOp w op)) →
  ∀ ops w, P w → P (runOps ops w).
Proof.
  intros Hstep ops. induction ops as [|op rest IH]; simpl; intros w Hw; [exact Hw|].
  apply IH. apply Hstep. exact Hw.
Qed.

(** X7.  The keys of [positions] stay keys: after any sequence of recorded
    buys and sells from the empty store, no two rows share an identifier
    and no two rows share a buy signature (a buy transaction opens at most
    one position). *)
Theorem positions_keys_stay_unique (ops : list StoreOp) :
  List.NoDup (map id (positions (runOps ops emptyWorld)))
  ∧ List.NoDup (map buy_signature (positions (runOps ops emptyWorld))).
Proof.
  apply (runOps_invariant
           (λ w, List.NoDup (map id (positions w))
                 ∧ List.NoDup (map buy_signature (positions w)))).
  - intros w op. apply applyOp_keeps_keys.
  - simpl. split; constructor.
Qed.

Lemma same_id_same_row (rows : list Position) (a b : Position) :
  List.NoDup (map id rows) → In a rows → In b rows → id a = id b → a = b.
Proof.
  induction rows as [|row rest IH]; simpl; [contradiction|].
  intros Hnodup Ha Hb Hid. apply NoDup_cons_iff in Hnodup as [Hfresh Hrest].
  destruct Ha as [<-|Ha], Hb as [<-|Hb].
  - reflexivity.
  - exfalso. apply Hfresh. rewrite Hid. apply in_map. exact Hb.
  - exfalso. apply Hfresh. rewrite <- Hid. apply in_map. exact Ha.
  - apply IH; assumption.
Qed.

Lemma updateById_absent (target : nat) (f : Position → Position) (rows : list Position) :
  (∀ row, In row rows → id row ≠ target) → updateById target f rows = rows.
Proof.
  intros Habsent. unfold updateById.
  induction rows as [|row rest IH]; simpl; [reflexivity|].
  assert (E : Nat.eqb (id row) target = false)
    by (apply Nat.eqb_neq; apply Habsent; left; reflexivity).
  rewrite E, IH; [reflexivity|]. intros r Hr. apply Habsent. right. exact Hr.
Qed.

Lemma updateById_keeps (target : nat) (f : Position → Position)
    (rows : list Position) (row : Position) :
  In row rows → id row ≠ target → In row (updateById target f rows).
Proof.
  intros Hin Hid. unfold updateById. apply in_map_iff. exists row.
  apply Nat.eqb_neq in Hid. rewrite Hid. split; [reflexivity | exact Hin].
Qed.

Lemma closed_row_survives (w : World) (op : StoreOp) (row : Position) :
  List.NoDup (map id (positions w)) →
  In row (positions w) → is_open row = false →
  In row (positions (applyOp w op)).
Proof.
  intros Hnodup Hin Hclosed. destruct op as [data|data]; unfold applyOp.
  - unfold recordBuyTransaction. destruct (existsb _ (positions w)); simpl;
      [exact Hin | apply in_or_app; left; exact Hin].
  - rewrite recordSellTransaction_eq.
    destruct (latestBuy _) as [position|] eqn:H; simpl; [|exact Hin].
    apply updateById_keeps; [exact Hin|]. intros Hid.
    apply latestBuy_In in H. apply filter_In in H as [Hp Hopen].
    apply isOpenFor_true in Hopen as (_ & _ & Ho).
    rewrite <- (same_id_same_row _ _ _ Hnodup Hin Hp Hid) in Ho.
    rewrite Hclosed in Ho. discriminate.
Qed.

(** X8.  A closed position is final: a row with [is_open = false] that
    the table holds after a sequence of recorded buys and sells from the
    empty store is still in the table, field for field, after any further
    buys and sells. *)
Theorem closed_position_is_never_rewritten
    (before after : list StoreOp) (row : Position) :
  In row (positions (runOps before emptyWorld)) →
  is_open row = false →
  In row (positions (runOps (before ++ after) emptyWorld)).
Proof.
  intros Hin Hclosed. unfold runOps. rewrite fold_left_app.
  change (fold_left applyOp before emptyWorld) with (runOps before emptyWorld).
  assert (Hkeys : List.NoDup (map id (positions (runOps before emptyWorld)))
                  ∧ List.NoDup (map buy_signature (positions (runOps before emptyWorld)))).
  { apply (runOps_invariant
             (λ w, List.NoDup (map id (positions w))
                   ∧ List.NoDup (map buy_signature (positions w)))).
    - intros w op. apply applyOp_keeps_keys.
    - simpl. split; constructor. }
  revert Hin Hkeys. generalize (runOps before emptyWorld) as w.
  induction after as [|op rest IH]; simpl; intros w Hin Hkeys; [exact Hin|].
  apply IH.
  - apply closed_row_survives; [apply Hkeys | exact Hin | exact Hclosed].
  - apply applyOp_keeps_keys. exact Hkeys.
Qed.

Lemma closed_position_is_never_rewritten_witness :
  In (nth 0 (positions (runOps [RecordBuy firstBuy; RecordSell firstSell] emptyWorld))
        openedByFirstBuy)
     (positions (runOps ([RecordBuy firstBuy; RecordSell firstSell]
                         ++ [RecordBuy secondBuy; RecordSell firstSell]) emptyWorld)).
Proof.
  apply (closed_position_is_never_rewritten
           [RecordBuy firstBuy; RecordSell firstSell]
           [RecordBuy secondBuy; RecordSell firstSell]).
  - vm_compute. left. reflexivity.
  - reflexivity.
Defined.

Lemma open_rows_after_closing_one (walletAddress tokenMint : string)
    (data : SellTransactionData) (sellMs hold : Z) (pnl pct : float)
    (rows : list Position) (position : Position) :
  List.NoDup (map id rows) → In position rows →
  (length (List.filter (isOpenFor walletAddress tokenMint)
             (updateById (id position) (closeRow data sellMs hold pnl pct) rows))
   + (if isOpenFor walletAddress tokenMint position then 1 else 0)
   = length (List.filter (isOpenFor walletAddress tokenMint) rows))%nat.
Proof.
  induction rows as [|row rest IH]; simpl; [contradiction|].
  intros Hnodup Hin. apply NoDup_cons_iff in Hnodup as [Hfresh Hrest].
  destruct Hin as [->|Hin].
  - rewrite Nat.eqb_refl, isOpenFor_closeRow.
    fold (updateById (id position) (closeRow data sellMs hold pnl pct) rest).
    rewrite updateById_absent.
    + destruct (isOpenFor walletAddress tokenMint position); simpl; lia.
    + intros r Hr Hid. apply Hfresh. rewrite <- Hid. apply in_map. exact Hr.
  - assert (E : Nat.eqb (id row) (id position) = false).
    { apply Nat.eqb_neq. intros Hid. apply Hfresh. rewrite Hid. apply in_map. exact Hin. }
    rewrite E. specialize (IH Hrest Hin).
    destruct (isOpenFor walletAddress tokenMint row); simpl; lia.
Qed.

(** X9.  With the identifiers of the table distinct, a sell that finds an
    open position closes exactly one row: the pair of the sell has one open
    row fewer, and the number of open rows of every other pair is as
    before. *)
Theorem sell_closes_exactly_one_position
    (data : SellTransactionData) (position : Position) (w : World) :
  List.NoDup (map id (positions w)) →
  getOpenPosition (sellWalletAddress data) (sellTokenMint data) w
    = (Normal (Some position), w) →
  let w' := snd (recordSellTransaction data w) in
  (countOpen (sellWalletAddress data) (sellTokenMint data) w' + 1
   = countOpen (sellWalletAddress data) (sellTokenMint data) w)%nat
  ∧ ∀ walletAddress tokenMint,
      walletAddress ≠ sellWalletAddress data ∨ tokenMint ≠ sellTokenMint data →
      countOpen walletAddress tokenMint w' = countOpen walletAddress tokenMint w.
Proof.
  intros Hnodup Hopen w'. subst w'.
  unfold getOpenPosition in Hopen. injection Hopen as Hlatest.
  rewrite recordSellTransaction_eq, Hlatest. unfold countOpen. simpl.
  apply latestBuy_In in Hlatest. apply filter_In in Hlatest as [Hin Hpair].
  split.
  - match goal with
    | |- context [updateById _ (closeRow ?d ?a ?b ?c ?e) _] =>
        pose proof (open_rows_after_closing_one (sellWalletAddress data)
                      (sellTokenMint data) d a b c e _ position Hnodup Hin) as Hcount
    end.
    rewrite Hpair in Hcount. exact Hcount.
  - intros walletAddress tokenMint Hother.
    match goal with
    | |- context [updateById _ (closeRow ?d ?a ?b ?c ?e) _] =>
        pose proof (open_rows_after_closing_one walletAddress tokenMint
                      d a b c e _ position Hnodup Hin) as Hcount
    end.
    apply isOpenFor_true in Hpair as (Hw & Hm & _).
    assert (E : isOpenFor walletAddress tokenMint position = false).
    { destruct (isOpenFor walletAddress tokenMint position) eqn:E; [|reflexivity].
      apply isOpenFor_true in E as (Hw' & Hm' & _).
      destruct Hother as [Hne|Hne]; exfalso; apply Hne; congruence. }
    rewrite E in Hcount. lia.
Qed.

Lemma sell_closes_exactly_one_position_witness :
  (countOpen whale bonk (snd (recordSellTransaction firstSell afterFirstBuy)) + 1
   = countOpen whale bonk afterFirstBuy)%nat.
Proof.
  apply (sell_closes_exactly_one_position firstSell openedByFirstBuy afterFirstBuy).
  - vm_compute. repeat constructor. intros [].
  - vm_compute. reflexivity.
Defined.

Lemma recordBuyTransaction_eq (data : BuyTransactionData) (w : World) :
  recordBuyTransaction data w =
  if existsb (λ row, String.eqb (buy_signature row) (buySignature data)) (positions w)
  then (Abrupt (UniqueViolation "positions_buy_signature_key"), w)
  else (Normal tt, setPositions (positions w ++ [openedRow data (positions w)]) w).
Proof. reflexivity. Qed.

(** X10.  A round trip through the store.  When a buy is recorded for a
    pair that has no open row, the sell of that pair that follows closes
    the row of that buy and no other: the table is the table from before
    the buy with one row appended, closed, which carries the wallet, the
    mint and the signature of the buy, the signature of the sell, the two
    instants, and as its hold time the whole seconds between the two
    timestamps (negative when the sell is stamped earlier). *)
Theorem buy_then_sell_round_trip
    (bought : BuyTransactionData) (sold : SellTransactionData) (w w1 : World) :
  recordBuyTransaction bought w = (Normal tt, w1) →
  countOpen (buyWalletAddress bought) (buyTokenMint bought) w = 0%nat →
  sellWalletAddress sold = buyWalletAddress bought →
  sellTokenMint sold = buyTokenMint bought →
  fst (recordSellTransaction sold w1) = Normal tt
  ∧ ∃ row,
      positions (snd (recordSellTransaction sold w1)) = positions w ++ [row]
      ∧ is_open row = false
      ∧ wallet_address row = buyWalletAddress bought
      ∧ token_mint row = buyTokenMint bought
      ∧ buy_signature row = buySignature bought
      ∧ sell_signature row = Some (sellSignature sold)
      ∧ buy_timestamp row = buyTimestamp bought * 1000
      ∧ sell_timestamp row = Some (sellTimestamp sold * 1000)
      ∧ hold_duration_seconds row = Some (sellTimestamp sold - buyTimestamp bought).
Proof.
  intros Hbuy Hnone Hwallet Hmint.
  rewrite recordBuyTransaction_eq in Hbuy.
  destruct (existsb _ (positions w)); [discriminate|].
  injection Hbuy as <-.
  unfold countOpen in Hnone. apply nil_length_inv in Hnone.
  rewrite recordSellTransaction_eq. cbn [positions setPositions].
  rewrite Hwallet, Hmint, List.filter_app, Hnone. cbn [List.filter app].
  assert (Hnew : isOpenFor (buyWalletAddress bought) (buyTokenMint bought)
                   (openedRow bought (positions w)) = true)
    by (apply isOpenFor_true; repeat split).
  rewrite Hnew. cbn [latestBuy]. split; [reflexivity|].
  cbn [snd positions setPositions]. unfold updateById at 1. rewrite map_app.
  cbn [map]. change (id (openedRow bought (positions w))) with (freshId (positions w)).
  rewrite Nat.eqb_refl.
  match goal with
  | |- context [map ?g (positions w) ++ _] =>
      change (map g (positions w))
        with (updateById (freshId (positions w))
                (closeRow sold (sellTimestamp sold * 1000)
                   ((sellTimestamp sold * 1000
                     - buy_timestamp (openedRow bought (positions w))) / 1000)
                   (sellValueUsd sold - buy_value_usd (openedRow bought (positions w)))%float
                   ((sellPriceUsd sold - buy_price_usd (openedRow bought (positions w)))
                    / buy_price_usd (openedRow bought (positions w)) * 100)%float)
                (positions w))
  end.
  rewrite updateById_absent
    by (intros row Hrow; apply freshId_bound in Hrow; lia).
  eexists. split; [reflexivity|].
  cbn [is_open wallet_address token_mint buy_signature sell_signature buy_timestamp
       sell_timestamp hold_duration_seconds closeRow openedRow].
  repeat (split; [reflexivity|]). f_equal.
  replace (sellTimestamp sold * 1000 - buyTimestamp bought * 1000)
    with ((sellTimestamp sold - buyTimestamp bought) * 1000) by lia.
  rewrite Z.div_mul; lia.
Qed.

Lemma buy_then_sell_round_trip_witness :
  map hold_duration_seconds
    (positions (snd (recordSellTransaction firstSell afterFirstBuy)))
  = [Some 187200].
Proof.
  pose proof (buy_then_sell_round_trip firstBuy firstSell emptyWorld afterFirstBuy
                eq_refl eq_refl eq_refl eq_refl)
    as (_ & row & Hrows & _ & _ & _ & _ & _ & _ & _ & Hhold).
  rewrite Hrows. simpl. rewrite Hhold. reflexivity.
Defined.

(** ** Classifier: lookups, frame and fallbacks *)

(** X11.  The age lookup is memoized per mint.  Once a call has answered
    with a creation time, every later call for that mint answers with the
    same time from the cache and leaves the world alone, whatever the
    history request would answer by then.  A call that answers [null]
    caches nothing. *)
Theorem getTokenCreationTime_is_memoized
    (axios_get axios_get' : string → option (list HeliusTransaction))
    (mintAddress : string) (w w' : World) (answer : option Z) :
  getTokenCreationTime axios_get mintAddress w = (Normal answer, w') →
  match answer with
  | Some creationTime =>
      getTokenCreationTime axios_get' mintAddress w' = (Normal (Some creationTime), w')
  | None => w' = w
  end.
Proof.
  unfold getTokenCreationTime.
  destruct (tokenAgeCache w !! mintAddress) as [cached|] eqn:Hcache.
  - intros [= <- <-]. rewrite Hcache. reflexivity.
  - destruct (axios_get mintAddress) as [data|]; [|intros [= <- <-]; reflexivity].
    destruct (last data) as [creationTx|]; [|intros [= <- <-]; reflexivity].
    intros [= <- <-]. simpl. rewrite lookup_insert_eq. reflexivity.
Qed.

Lemma getTokenCreationTime_is_memoized_witness :
  getTokenCreationTime lookupFails bonk
    (snd (getTokenCreationTime lookupCreatedAt1700000000 bonk emptyWorld))
  = (Normal (Some 1700000000),
     snd (getTokenCreationTime lookupCreatedAt1700000000 bonk emptyWorld)).
Proof.
  apply (getTokenCreationTime_is_memoized lookupCreatedAt1700000000 lookupFails bonk
           emptyWorld _ (Some 1700000000)).
  reflexivity.
Defined.

Lemma parseSwapTransaction_world (cfg : Config)
    (axios_get : string → option (list HeliusTransaction))
    (tx : HeliusTransaction) (walletAddress : string) (w : World) :
  snd (parseSwapTransaction cfg axios_get tx walletAddress w) = w
  ∨ ∃ mintAddress,
      snd (parseSwapTransaction cfg axios_get tx walletAddress w)
      = snd (getTokenCreationTime axios_get mintAddress w).
Proof.
  destruct (String.eqb (txType tx) "SWAP") eqn:Hswap.
  2:{ left. unfold parseSwapTransaction. rewrite Hswap. reflexivity. }
  destruct (transactionError tx) as [e|] eqn:Herror.
  { left. unfold parseSwapTransaction. rewrite Hswap, Herror. reflexivity. }
  rewrite (parseSwapTransaction_eq _ _ _ _ _ Hswap Herror).
  destruct (findTokenTransfer (tokenTransfers tx) walletAddress) as [[[|] transfer]|];
    [|left; reflexivity|left; reflexivity].
  right. exists (mint transfer).
  destruct (getTokenCreationTime axios_get (mint transfer) w) as [[answer|e] w']; [|reflexivity].
  destruct (knownCreationTime answer); [destruct (olderThanMaximum _ _ _)|]; reflexivity.
Qed.

Lemma getTokenCreationTime_world
    (axios_get : string → option (list HeliusTransaction))
    (mintAddress : string) (w : World) :
  ∃ cache,
    snd (getTokenCreationTime axios_get mintAddress w) = setTokenAgeCache cache w
    ∧ tokenAgeCache w ⊆ cache.
Proof.
  unfold getTokenCreationTime.
  assert (Hsame : ∃ cache, w = setTokenAgeCache cache w ∧ tokenAgeCache w ⊆ cache)
    by (exists (tokenAgeCache w); split; [destruct w; reflexivity | reflexivity]).
  destruct (tokenAgeCache w !! mintAddress) as [cached|] eqn:Hcache; [exact Hsame|].
  destruct (axios_get mintAddress) as [data|]; [|exact Hsame].
  destruct (last data) as [creationTx|]; [|exact Hsame].
  simpl. eexists. split; [reflexivity|]. apply insert_subseteq. exact Hcache.
Qed.

(** X12.  The classifier writes nothing but the age cache: after
    [parseSwapTransaction] the two tables, the outbox and the watermarks
    are what they were, and the cache has kept every entry it had. *)
Theorem parseSwapTransaction_touches_only_the_cache (cfg : Config)
    (axios_get : string → option (list HeliusTransaction))
    (tx : HeliusTransaction) (walletAddress : string) (w : World) :
  let w' := snd (parseSwapTransaction cfg axios_get tx walletAddress w) in
  positions w' = positions w
  ∧ processed_signatures w' = processed_signatures w
  ∧ sent w' = sent w
  ∧ lastProcessedSignatures w' = lastProcessedSignatures w
  ∧ tokenAgeCache w ⊆ tokenAgeCache w'.
Proof.
  intros w'. subst w'.
  destruct (parseSwapTransaction_world cfg axios_get tx walletAddress w)
    as [-> | (mintAddress & ->)].
  - repeat split; reflexivity.
  - destruct (getTokenCreationTime_world axios_get mintAddress w) as (cache & -> & Hsub).
    repeat split; try reflexivity. exact Hsub.
Qed.

Lemma findTokenTransfer_sound (tokenTransfers : list HeliusTokenTransfer)
    (walletAddress : string) (isBuy : bool) (transfer : HeliusTokenTransfer) :
  findTokenTransfer tokenTransfers walletAddress = Some (isBuy, transfer) →
  In transfer tokenTransfers
  ∧ mint transfer ≠ WRAPPED_SOL
  ∧ (if isBuy
     then sameAccount (toUserAccount transfer) walletAddress = true
     else sameAccount (toUserAccount transfer) walletAddress = false
          ∧ sameAccount (fromUserAccount transfer) walletAddress = true).
Proof.
  induction tokenTransfers as [|first rest IH]; simpl; [discriminate|].
  destruct (String.eqb (mint first) WRAPPED_SOL) eqn:Hsol.
  - intros H. destruct (IH H) as (Hin & Hrest). split; [right; exact Hin | exact Hrest].
  - apply String.eqb_neq in Hsol.
    destruct (sameAccount (toUserAccount first) walletAddress) eqn:Hto.
    + intros [= <- <-]. repeat split; [left; reflexivity | exact Hsol | exact Hto].
    + destruct (sameAccount (fromUserAccount first) walletAddress) eqn:Hfrom.
      * intros [= <- <-]. repeat split; [left; reflexivity | exact Hsol | exact Hto | exact Hfrom].
      * intros H. destruct (IH H) as (Hin & Hrest). split; [right; exact Hin | exact Hrest].
Qed.

(** X13.  What a classification carries.  Whenever [parseSwapTransaction]
    returns a transfer, the transaction is a swap without error, and the
    result is built on one of its token transfers whose mint is not the
    wrapped-native mint: it has that transfer's mint (also as symbol and
    name) and amount, the signature and the timestamp of the transaction,
    and the wallet is the receiver of that transfer for a buy, and its
    sender but not its receiver for a sell. *)
Theorem parsed_transfer_comes_from_the_transaction (cfg : Config)
    (axios_get : string → option (list HeliusTransaction))
    (tx : HeliusTransaction) (walletAddress : string) (w : World)
    (parsed : ParsedTokenTransfer) :
  fst (parseSwapTransaction cfg axios_get tx walletAddress w) = Normal (Some parsed) →
  txType tx = "SWAP"
  ∧ transactionError tx = None
  ∧ parsedSignature parsed = txSignature tx
  ∧ parsedTimestamp parsed = txTimestamp tx
  ∧ ∃ transfer,
      In transfer (tokenTransfers tx)
      ∧ mint transfer ≠ WRAPPED_SOL
      ∧ parsedTokenMint parsed = mint transfer
      ∧ parsedTokenSymbol parsed = mint transfer
      ∧ parsedTokenName parsed = mint transfer
      ∧ parsedAmount parsed = tokenAmount transfer
      ∧ match parsedType parsed with
        | buy => sameAccount (toUserAccount transfer) walletAddress = true
        | sell => sameAccount (toUserAccount transfer) walletAddress = false
                  ∧ sameAccount (fromUserAccount transfer) walletAddress = true
        end.
Proof.
  intros Hresult.
  assert (Hswap : String.eqb (txType tx) "SWAP" = true).
  { destruct (String.eqb (txType tx) "SWAP") eqn:E; [reflexivity|].
    unfold parseSwapTransaction in Hresult. rewrite E in Hresult. discriminate. }
  assert (Herror : transactionError tx = None).
  { destruct (transactionError tx) as [e|] eqn:E; [|reflexivity].
    unfold parseSwapTransaction in Hresult. rewrite Hswap, E in Hresult. discriminate. }
  rewrite (parseSwapTransaction_eq _ _ _ _ _ Hswap Herror) in Hresult.
  apply String.eqb_eq in Hswap.
  destruct (findTokenTransfer (tokenTransfers tx) walletAddress)
    as [[isBuy transfer]|] eqn:Hfind; [|discriminate].
  destruct (findTokenTransfer_sound _ _ _ _ Hfind) as (Hin & Hsol & Hparty).
  assert (Hparsed : parsed = parsedFrom tx walletAddress isBuy transfer).
  { destruct isBuy; [|injection Hresult as <-; reflexivity].
    destruct (getTokenCreationTime axios_get (mint transfer) w) as [[answer|e] w'];
      [|discriminate].
    destruct (knownCreationTime answer); [destruct (olderThanMaximum _ _ _)|];
      first [discriminate | injection Hresult as <-; reflexivity]. }
  subst parsed. split; [exact Hswap|]. split; [exact Herror|].
  split; [reflexivity|]. split; [reflexivity|].
  exists transfer. repeat (split; [first [exact Hin | exact Hsol | reflexivity]|]).
  simpl. destruct isBuy; exact Hparty.
Qed.

Lemma parsed_transfer_comes_from_the_transaction_witness :
  ∃ transfer,
    In transfer (tokenTransfers buyWithUsdc)
    ∧ mint transfer ≠ WRAPPED_SOL
    ∧ mint transfer = bonk.
Proof.
  destruct (parsed_transfer_comes_from_the_transaction defaultConfig lookupFails
              buyWithUsdc whale emptyWorld
              (parsedFrom buyWithUsdc whale true
                 {| fromUserAccount := Some pool; toUserAccount := Some whale;
                    mint := bonk; tokenAmount := 1000000 |}))
    as (_ & _ & _ & _ & transfer & Hin & Hsol & Hmint & _).
  - vm_compute. reflexivity.
  - exists transfer. split; [exact Hin|]. split; [exact Hsol|].
    symmetry. exact Hmint.
Defined.

Lemma stablecoinValue_none (tokenTransfers : list HeliusTokenTransfer)
    (walletAddress : string) (isBuy : bool) :
  (∀ transfer, In transfer tokenTransfers →
     stablecoinInDirection walletAddress isBuy transfer = false) →
  stablecoinValue tokenTransfers walletAddress isBuy = None.
Proof.
  induction tokenTransfers as [|transfer rest IH]; intros Hnone; [reflexivity|].
  rewrite stablecoinValue_skips by (apply Hnone; left; reflexivity).
  apply IH. intros t Ht. apply Hnone. right. exact Ht.
Qed.

Lemma wrappedSolValue_first (before after : list HeliusTokenTransfer)
    (transfer : HeliusTokenTransfer) :
  mint transfer = WRAPPED_SOL →
  (∀ earlier, In earlier before → mint earlier ≠ WRAPPED_SOL) →
  wrappedSolValue (before ++ transfer :: after)
  = Some (tokenAmount transfer * estimatedSolPrice)%float.
Proof.
  intros Hsol. induction before as [|earlier before IH]; intros Hnone; simpl.
  - rewrite Hsol. reflexivity.
  - assert (E : String.eqb (mint earlier) WRAPPED_SOL = false)
      by (apply String.eqb_neq; apply Hnone; left; reflexivity).
    rewrite E. apply IH. intros e He. apply Hnone. right. exact He.
Qed.

Lemma wrappedSolValue_none (tokenTransfers : list HeliusTokenTransfer) :
  (∀ transfer, In transfer tokenTransfers → mint transfer ≠ WRAPPED_SOL) →
  wrappedSolValue tokenTransfers = None.
Proof.
  induction tokenTransfers as [|transfer rest IH]; intros Hnone; simpl; [reflexivity|].
  assert (E : String.eqb (mint transfer) WRAPPED_SOL = false)
    by (apply String.eqb_neq; apply Hnone; left; reflexivity).
  rewrite E. apply IH. intros t Ht. apply Hnone. right. exact Ht.
Qed.

Lemma nativeValue_find (nativeTransfers : list HeliusNativeTransfer)
    (walletAddress : string) (isBuy : bool) :
  nativeValue nativeTransfers walletAddress isBuy
  = match List.find (nativeInDirection walletAddress isBuy) nativeTransfers with
    | Some transfer => Some (nativeAmount transfer / 1e9 * estimatedSolPrice)%float
    | None => None
    end.
Proof.
  induction nativeTransfers as [|transfer rest IH]; simpl; [reflexivity|].
  unfold nativeInDirection at 1. destruct isBuy; simpl.
  - destruct (sameAccount (nativeFromUserAccount transfer) walletAddress);
      [reflexivity | exact IH].
  - destruct (sameAccount (nativeToUserAccount transfer) walletAddress);
      [reflexivity | exact IH].
Qed.

(** X14.  The wrapped-native fallback looks at no account.  When no
    stablecoin transfer moves in the wallet's direction, the USD value is
    100 times the amount of the first wrapped-SOL transfer of the
    transaction, whoever sends and receives it and whatever the native
    transfers are. *)
Theorem calculateUSDValue_wrapped_sol_fallback
    (before after : list HeliusTokenTransfer) (transfer : HeliusTokenTransfer)
    (nativeTransfers : list HeliusNativeTransfer) (walletAddress : string) (isBuy : bool) :
  (∀ t, In t (before ++ transfer :: after) →
     stablecoinInDirection walletAddress isBuy t = false) →
  mint transfer = WRAPPED_SOL →
  (∀ earlier, In earlier before → mint earlier ≠ WRAPPED_SOL) →
  calculateUSDValue (before ++ transfer :: after) nativeTransfers walletAddress isBuy
  = (tokenAmount transfer * 100)%float.
Proof.
  intros Hstable Hsol Hfirst. unfold calculateUSDValue.
  rewrite (stablecoinValue_none _ _ _ Hstable).
  rewrite (wrappedSolValue_first _ _ _ Hsol Hfirst). reflexivity.
Qed.

Lemma calculateUSDValue_wrapped_sol_fallback_witness :
  calculateUSDValue
    [ {| fromUserAccount := Some pool; toUserAccount := Some whale;
         mint := bonk; tokenAmount := 1000000 |};
      {| fromUserAccount := Some pool; toUserAccount := Some otherWallet;
         mint := WRAPPED_SOL; tokenAmount := 0.25 |} ]
    [] whale true
  = 25%float.
Proof.
  etransitivity;
    [apply (calculateUSDValue_wrapped_sol_fallback
              [ {| fromUserAccount := Some pool; toUserAccount := Some whale;
                   mint := bonk; tokenAmount := 1000000 |} ]
              []
              {| fromUserAccount := Some pool; toUserAccount := Some otherWallet;
                 mint := WRAPPED_SOL; tokenAmount := 0.25 |}
              [] whale true)
    | reflexivity].
  - simpl. intros t [<-|[<-|[]]]; reflexivity.
  - reflexivity.
  - simpl. intros t [<-|[]]. discriminate.
Defined.

(** X15.  The last two steps of the USD value.  When no stablecoin
    transfer moves in the wallet's direction and the transaction has no
    wrapped-SOL transfer, the value comes from the first native transfer
    that the wallet sends (for a buy) or receives (for a sell): its
    lamports divided by 1e9, times 100.  Without such a transfer the value
    is 0. *)
Theorem calculateUSDValue_native_fallback
    (tokenTransfers : list HeliusTokenTransfer)
    (nativeTransfers : list HeliusNativeTransfer) (walletAddress : string) (isBuy : bool) :
  (∀ t, In t tokenTransfers → stablecoinInDirection walletAddress isBuy t = false) →
  (∀ t, In t tokenTransfers → mint t ≠ WRAPPED_SOL) →
  calculateUSDValue tokenTransfers nativeTransfers walletAddress isBuy
  = match List.find (nativeInDirection walletAddress isBuy) nativeTransfers with
    | Some transfer => (nativeAmount transfer / 1e9 * 100)%float
    | None => 0%float
    end.
Proof.
  intros Hstable Hsol. unfold calculateUSDValue.
  rewrite (stablecoinValue_none _ _ _ Hstable), (wrappedSolValue_none _ Hsol).
  rewrite nativeValue_find.
  destruct (List.find _ nativeTransfers); reflexivity.
Qed.

Lemma calculateUSDValue_native_fallback_witness :
  calculateUSDValue
    [ {| fromUserAccount := Some pool; toUserAccount := Some whale;
         mint := bonk; tokenAmount := 1000000 |} ]
    [ {| nativeFromUserAccount := Some pool; nativeToUserAccount := Some whale;
         nativeAmount := 5000 |};
      {| nativeFromUserAccount := Some whale; nativeToUserAccount := Some pool;
         nativeAmount := 250000000 |} ]
    whale true
  = 25%float.
Proof.
  rewrite calculateUSDValue_native_fallback.
  - reflexivity.
  - simpl. intros t [<-|[]]. reflexivity.
  - simpl. intros t [<-|[]]. discriminate.
Defined.

(** ** Poll loop: idempotence and isolation *)

Lemma bind_normal {A B : Type} (m : Async A) (k : A → Async B)
    (w w' : World) (b : B) :
  (m ≫= k) w = (Normal b, w') →
  ∃ a w1, m w = (Normal a, w1) ∧ k a w1 = (Normal b, w').
Proof.
  unfold mbind, Async_bind. destruct (m w) as [[a|e] w1]; [eauto | discriminate].
Qed.

Lemma isSignatureProcessed_world (signature : string) (w : World) :
  snd (isSignatureProcessed signature w) = w.
Proof.
  unfold isSignatureProcessed.
  destruct (List.filter _ (processed_signatures w)) as [|? [|? ?]]; reflexivity.
Qed.

Lemma isSignatureProcessed_after_mark (signature walletAddress : string) (w w' : World) :
  markSignatureProcessed signature walletAddress w = (Normal tt, w') →
  isSignatureProcessed signature w' = (Normal true, w').
Proof.
  unfold markSignatureProcessed.
  destruct (existsb _ (processed_signatures w)) eqn:E; [discriminate|].
  intros [= <-]. apply existsb_false_filter in E.
  unfold isSignatureProcessed. simpl.
  rewrite List.filter_app, E. simpl. rewrite String.eqb_refl. reflexivity.
Qed.

Lemma handled_then_marked (cfg : Config)
    (axios_get : string → option (list HeliusTransaction))
    (tx : HeliusTransaction) (walletAddress : string) (walletLabel : option string)
    (w w' : World) :
  handleTransaction cfg axios_get tx walletAddress walletLabel w = (Normal tt, w') →
  (isSignatureProcessed (txSignature tx) w = (Normal true, w) ∧ w' = w)
  ∨ ∃ w1, markSignatureProcessed (txSignature tx) walletAddress w1 = (Normal tt, w').
Proof.
  unfold handleTransaction. intros H.
  apply bind_normal in H as (processed & w0 & Hprocessed & H).
  pose proof (isSignatureProcessed_world (txSignature tx) w) as Hw.
  rewrite Hprocessed in Hw. simpl in Hw. subst w0.
  destruct processed.
  - left. injection H as <-. split; [exact Hprocessed | reflexivity].
  - right. apply bind_normal in H as (parsed & w1 & _ & H).
    destruct parsed as [parsed|]; [|eauto].
    destruct (parsedType parsed).
    + apply bind_normal in H as (? & w2 & _ & H).
      apply bind_normal in H as (? & w3 & _ & H). eauto.
    + apply bind_normal in H as (position & w2 & _ & H).
      destruct position as [position|]; [|eauto].
      apply bind_normal in H as (? & w3 & _ & H).
      apply bind_normal in H as (? & w4 & _ & H). eauto.
Qed.

(** X16.  Handling is idempotent.  When the loop body has handled a
    transaction and returned normally, handling the same transaction again
    changes nothing: no second row, no second notification, no error. *)
Theorem handleTransaction_twice (cfg : Config)
    (axios_get : string → option (list HeliusTransaction))
    (tx : HeliusTransaction) (walletAddress : string) (walletLabel : option string)
    (w w' : World) :
  handleTransaction cfg axios_get tx walletAddress walletLabel w = (Normal tt, w') →
  ∀ cfg' axios_get' walletLabel',
    handleTransaction cfg' axios_get' tx walletAddress walletLabel' w' = (Normal tt, w').
Proof.
  intros H cfg' axios_get' walletLabel'.
  assert (Hprocessed : isSignatureProcessed (txSignature tx) w' = (Normal true, w')).
  { destruct (handled_then_marked _ _ _ _ _ _ _ H) as [[Hp ->] | [w1 Hmark]];
      [exact Hp | exact (isSignatureProcessed_after_mark _ _ _ _ Hmark)]. }
  unfold handleTransaction, mbind, Async_bind. rewrite Hprocessed. reflexivity.
Qed.

Lemma handleTransaction_twice_witness :
  handleTransaction defaultConfig lookupFails buyWithUsdc whale None
    (snd (handleTransaction defaultConfig lookupFails buyWithUsdc whale None emptyWorld))
  = (Normal tt,
     snd (handleTransaction defaultConfig lookupFails buyWithUsdc whale None emptyWorld)).
Proof.
  apply (handleTransaction_twice defaultConfig lookupFails buyWithUsdc whale None
           emptyWorld).
  vm_compute. reflexivity.
Defined.

Lemma walked_all (lastProcessed : option string) (txs : list HeliusTransaction) :
  (∀ tx, In tx txs → reachedLastProcessed lastProcessed tx = false) →
  walked lastProcessed txs = txs.
Proof.
  induction txs as [|tx rest IH]; intros Hnone; simpl; [reflexivity|].
  rewrite (Hnone tx) by (left; reflexivity). f_equal.
  apply IH. intros t Ht. apply Hnone. right. exact Ht.
Qed.

(** X17.  When the fetched batch does not hold the watermark of the wallet
    (in particular on the first poll of a process, when there is none),
    the loop handles every transaction of the batch, the oldest first. *)
Theorem batch_without_watermark_is_handled_in_full (cfg : Config)
    (axios_get : string → option (list HeliusTransaction))
    (lastProcessed : option string) (walletAddress : string)
    (walletLabel : option string) (transactions : list HeliusTransaction) :
  (∀ tx, In tx transactions → reachedLastProcessed lastProcessed tx = false) →
  processLoop cfg axios_get lastProcessed walletAddress walletLabel (rev transactions)
  = handleAll cfg axios_get walletAddress walletLabel (rev transactions).
Proof.
  intros Hnone. rewrite processLoop_walked, walked_all; [reflexivity|].
  intros tx Htx. apply Hnone. apply in_rev. exact Htx.
Qed.

Lemma batch_without_watermark_is_handled_in_full_witness :
  processLoop defaultConfig lookupFails None whale None (rev [laterBuy; buyWithUsdc])
  = handleAll defaultConfig lookupFails whale None [buyWithUsdc; laterBuy].
Proof.
  apply (batch_without_watermark_is_handled_in_full defaultConfig lookupFails None
           whale None [laterBuy; buyWithUsdc]).
  intros tx _. reflexivity.
Defined.

Lemma preserves_ret {A X : Type} (component : World → X) (a : A) :
  preserves component (mret a : Async A).
Proof. intros w. reflexivity. Qed.

Lemma preserves_bind {A B X : Type} (component : World → X)
    (m : Async A) (k : A → Async B) :
  preserves component m → (∀ a, preserves component (k a)) →
  preserves component (m ≫= k).
Proof.
  intros Hm Hk w. unfold mbind, Async_bind. specialize (Hm w).
  destruct (m w) as [[a|e] w1]; simpl in *; [rewrite Hk|]; exact Hm.
Qed.

Lemma handleTransaction_keeps_watermarks (cfg : Config)
    (axios_get : string → option (list HeliusTransaction))
    (tx : HeliusTransaction) (walletAddress : string) (walletLabel : option string) :
  preserves lastProcessedSignatures
    (handleTransaction cfg axios_get tx walletAddress walletLabel).
Proof.
  assert (Hmark : ∀ s a, preserves lastProcessedSignatures (markSignatureProcessed s a)).
  { intros s a w. unfold markSignatureProcessed. destruct (existsb _ _); reflexivity. }
  assert (Hbuy : ∀ d, preserves lastProcessedSignatures (recordBuyTransaction d)).
  { intros d w. unfold recordBuyTransaction. destruct (existsb _ _); reflexivity. }
  assert (Hsell : ∀ d, preserves lastProcessedSignatures (recordSellTransaction d)).
  { intros d w. rewrite recordSellTransaction_eq. destruct (latestBuy _); reflexivity. }
  assert (Hparse : preserves lastProcessedSignatures
                     (parseSwapTransaction cfg axios_get tx walletAddress)).
  { intros w.
    destruct (parseSwapTransaction_world cfg axios_get tx walletAddress w)
      as [-> | (mintAddress & ->)]; [reflexivity|].
    destruct (getTokenCreationTime_world axios_get mintAddress w) as (cache & -> & _).
    reflexivity. }
  unfold handleTransaction. apply preserves_bind.
  { intros w. rewrite isSignatureProcessed_world. reflexivity. }
  intros [|]; [apply preserves_ret|].
  apply preserves_bind; [exact Hparse|].
  intros [parsed|]; [|apply Hmark].
  destruct (parsedType parsed).
  - apply preserves_bind; [apply Hbuy|]. intros _.
    apply preserves_bind; [|intros _; apply Hmark].
    destruct (shouldNotifyBuy _ _); [intros w; reflexivity | apply preserves_ret].
  - apply preserves_bind; [intros w; reflexivity|].
    intros [position|]; [|apply Hmark].
    apply preserves_bind; [apply Hsell|]. intros _.
    apply preserves_bind; [intros w; reflexivity | intros _; apply Hmark].
Qed.

Lemma processLoop_keeps_watermarks (cfg : Config)
    (axios_get : string → option (list HeliusTransaction))
    (lastProcessed : option string) (walletAddress : string)
    (walletLabel : option string) (reversedTxs : list HeliusTransaction) :
  preserves lastProcessedSignatures
    (processLoop cfg axios_get lastProcessed walletAddress walletLabel reversedTxs).
Proof.
  induction reversedTxs as [|tx rest IH]; simpl; [apply preserves_ret|].
  destruct (reachedLastProcessed lastProcessed tx); [apply preserves_ret|].
  apply preserves_bind; [apply handleTransaction_keeps_watermarks | intros _; exact IH].
Qed.

(** X18.  A poll moves no watermark but its own: after [processWallet]
    for one wallet the watermark of every other wallet is what it was,
    whatever was fetched and however the loop ended. *)
Theorem processWallet_keeps_other_watermarks (cfg : Config)
    (axios_get : string → option (list HeliusTransaction))
    (fetched : option (list HeliusTransaction))
    (walletAddress : string) (walletLabel : option string)
    (other : string) (w : World) :
  other ≠ walletAddress →
  lastProcessedSignatures
    (snd (processWallet cfg axios_get fetched walletAddress walletLabel w)) !! other
  = lastProcessedSignatures w !! other.
Proof.
  intros Hother.
  unfold processWallet, tryCatch, mbind, Async_bind, mret, Async_ret, getWorld,
    putWorld, throw.
  destruct fetched as [transactions|]; [|reflexivity].
  pose proof (processLoop_keeps_watermarks cfg axios_get
                (lastProcessedSignatures w !! walletAddress) walletAddress walletLabel
                (rev transactions) w) as Hloop.
  destruct (processLoop cfg axios_get (lastProcessedSignatures w !! walletAddress)
              walletAddress walletLabel (rev transactions) w) as [[[]|e] w1];
    simpl in *.
  - destruct transactions as [|newest rest]; simpl.
    + rewrite Hloop. reflexivity.
    + rewrite lookup_insert_ne by (intros ->; apply Hother; reflexivity).
      rewrite Hloop. reflexivity.
  - rewrite Hloop. reflexivity.
Qed.

Lemma processWallet_keeps_other_watermarks_witness :
  lastProcessedSignatures
    (snd (processWallet defaultConfig lookupFails (Some [swapToOtherWallet])
            secondWhale None afterFirstPoll)) !! whale
  = Some "S1".
Proof.
  rewrite (processWallet_keeps_other_watermarks defaultConfig lookupFails
             (Some [swapToOtherWallet]) secondWhale None whale afterFirstPoll).
  - reflexivity.
  - discriminate.
Defined.

Lemma processWallet_idle (cfg : Config)
    (axios_get : string → option (list HeliusTransaction))
    (fetched : option (list HeliusTransaction))
    (walletAddress : string) (walletLabel : option string) (w : World) :
  fetched = None ∨ fetched = Some [] →
  processWallet cfg axios_get fetched walletAddress walletLabel w = (Normal tt, w).
Proof.
  intros [-> | ->]; reflexivity.
Qed.

Lemma processWallet_returns (cfg : Config)
    (axios_get : string → option (list HeliusTransaction))
    (fetched : option (list HeliusTransaction))
    (walletAddress : string) (walletLabel : option string) (w : World) :
  fst (processWallet cfg axios_get fetched walletAddress walletLabel w) = Normal tt.
Proof.
  unfold processWallet, tryCatch.
  match goal with |- fst (match ?body with _ => _ end) = _ =>
    destruct body as [[?|?] ?] end; reflexivity.
Qed.

(** X19.  One wallet cannot stop the cycle.  A monitoring cycle always
    completes normally, and a wallet whose request fails, or whose batch is
    empty, is passed over without a trace: the cycle does to the world what
    it would do had that wallet not been listed. *)
Theorem monitoringCycle_isolates_failures (cfg : Config)
    (axios_get : string → option (list HeliusTransaction))
    (before after : list (WalletConfig * option (list HeliusTransaction)))
    (wallet : WalletConfig) (fetched : option (list HeliusTransaction)) (w : World) :
  fetched = None ∨ fetched = Some [] →
  monitoringCycle cfg axios_get (before ++ (wallet, fetched) :: after) w
  = monitoringCycle cfg axios_get (before ++ after) w
  ∧ fst (monitoringCycle cfg axios_get (before ++ (wallet, fetched) :: after) w)
    = Normal tt.
Proof.
  intros Hidle.
  assert (Hreturns : ∀ polls w0, fst (monitoringCycle cfg axios_get polls w0) = Normal tt).
  { induction polls as [|[wallet0 fetched0] rest IH]; intros w0; simpl; [reflexivity|].
    unfold mbind, Async_bind.
    pose proof (processWallet_returns cfg axios_get fetched0 (address wallet0)
                  (label wallet0) w0) as Hfirst.
    destruct (processWallet cfg axios_get fetched0 (address wallet0) (label wallet0) w0)
      as [[[]|e] w1]; simpl in Hfirst; [apply IH | discriminate]. }
  split; [|apply Hreturns].
  revert w. induction before as [|[wallet0 fetched0] rest IH]; intros w; simpl.
  - unfold mbind, Async_bind at 1.
    rewrite (processWallet_idle _ _ _ _ _ _ Hidle). reflexivity.
  - unfold mbind, Async_bind.
    destruct (processWallet cfg axios_get fetched0 (address wallet0) (label wallet0) w)
      as [[[]|e] w1]; [apply IH | reflexivity].
Qed.

Lemma monitoringCycle_isolates_failures_witness :
  monitoringCycle defaultConfig lookupFails
    [(secondWhaleConfig, None); (whaleConfig, Some [buyWithUsdc])] emptyWorld
  = monitoringCycle defaultConfig lookupFails
      [(whaleConfig, Some [buyWithUsdc])] emptyWorld.
Proof.
  apply (monitoringCycle_isolates_failures defaultConfig lookupFails []
           [(whaleConfig, Some [buyWithUsdc])] secondWhaleConfig None emptyWorld).
  left. reflexivity.
Defined.

(** X20.  Where the watermark goes.  After a poll with a batch that is not
    empty, the watermark of the wallet is the signature at index 0 of the
    batch when the loop has completed normally, and is left where it was
    when the loop has thrown, so that the next poll starts from the same
    watermark. *)
Theorem watermark_after_poll (cfg : Config)
    (axios_get : string → option (list HeliusTransaction))
    (newest : HeliusTransaction) (rest : list HeliusTransaction)
    (walletAddress : string) (walletLabel : option string) (w : World) :
  lastProcessedSignatures
    (snd (processWallet cfg axios_get (Some (newest :: rest)) walletAddress walletLabel w))
    !! walletAddress
  = match fst (processLoop cfg axios_get (lastProcessedSignatures w !! walletAddress)
                 walletAddress walletLabel (rev (newest :: rest)) w) with
    | Normal _ => Some (txSignature newest)
    | Abrupt _ => lastProcessedSignatures w !! walletAddress
    end.
Proof.
  unfold processWallet, tryCatch, mbind, Async_bind, mret, Async_ret, getWorld, putWorld.
  pose proof (processLoop_keeps_watermarks cfg axios_get
                (lastProcessedSignatures w !! walletAddress) walletAddress walletLabel
                (rev (newest :: rest)) w) as Hloop.
  destruct (processLoop cfg axios_get (lastProcessedSignatures w !! walletAddress)
              walletAddress walletLabel (rev (newest :: rest)) w) as [[[]|e] w1];
    simpl in *.
  - apply lookup_insert_eq.
  - rewrite Hloop. reflexivity.
Qed.

(** X21.  Where the loop stops.  Walking the batch oldest first, the loop
    handles the transactions that stand before the first one carrying the
    watermark and leaves at that one: the transaction with the watermark
    and every transaction after it in the walk are not handled in this
    poll. *)
Theorem processLoop_leaves_at_watermark (cfg : Config)
    (axios_get : string → option (list HeliusTransaction))
    (watermark : string) (walletAddress : string) (walletLabel : option string)
    (ahead behind : list HeliusTransaction) (marked : HeliusTransaction) :
  watermark ≠ EmptyString →
  txSignature marked = watermark →
  (∀ tx, In tx ahead → txSignature tx ≠ watermark) →
  processLoop cfg axios_get (Some watermark) walletAddress walletLabel
    (ahead ++ marked :: behind)
  = handleAll cfg axios_get walletAddress walletLabel ahead.
Proof.
  intros Hset Hmarked Hfresh. rewrite processLoop_walked. f_equal.
  assert (Hs : String.eqb watermark EmptyString = false)
    by (apply String.eqb_neq; exact Hset).
  induction ahead as [|tx ahead IH]; simpl.
  - rewrite Hs, Hmarked, String.eqb_refl. reflexivity.
  - rewrite Hs. simpl.
    assert (Htx : String.eqb (txSignature tx) watermark = false)
      by (apply String.eqb_neq; apply Hfresh; left; reflexivity).
    rewrite Htx. f_equal. apply IH. intros t Ht. apply Hfresh. right. exact Ht.
Qed.

Lemma processLoop_leaves_at_watermark_witness :
  processLoop defaultConfig lookupFails (Some "S1") whale None
    (rev [laterBuy; buyWithUsdc])
  = handleAll defaultConfig lookupFails whale None [].
Proof.
  apply (processLoop_leaves_at_watermark defaultConfig lookupFails "S1" whale None
           [] [laterBuy] buyWithUsdc).
  - discriminate.
  - reflexivity.
  - intros tx [].
Defined.

Lemma ledger_step_bind {A B : Type} (row : ProcessedSignature)
    (m : Async A) (k : A → Async B) :
  preserves processed_signatures m →
  (∀ a w1,
     processed_signatures (snd (k a w1)) = processed_signatures w1
     ∨ processed_signatures (snd (k a w1)) = processed_signatures w1 ++ [row]) →
  ∀ w,
    processed_signatures (snd ((m ≫= k) w)) = processed_signatures w
    ∨ processed_signatures (snd ((m ≫= k) w)) = processed_signatures w ++ [row].
Proof.
  intros Hm Hk w. unfold mbind, Async_bind. specialize (Hm w).
  destruct (m w) as [[a|e] w1]; simpl in *.
  - rewrite <- Hm. apply Hk.
  - left. exact Hm.
Qed.

(** X22.  The ledger is written once per transaction.  Whatever the loop
    body does with a transaction and however it ends, the ledger afterwards
    is the ledger from before, or the ledger from before with one row
    appended, the row of this transaction's signature and this wallet. *)
Theorem handleTransaction_appends_at_most_one_ledger_row (cfg : Config)
    (axios_get : string → option (list HeliusTransaction))
    (tx : HeliusTransaction) (walletAddress : string) (walletLabel : option string)
    (w : World) :
  let w' := snd (handleTransaction cfg axios_get tx walletAddress walletLabel w) in
  processed_signatures w' = processed_signatures w
  ∨ processed_signatures w'
    = processed_signatures w
      ++ [{| ps_signature := txSignature tx; ps_wallet_address := walletAddress |}].
Proof.
  intros w'. subst w'. revert w.
  set (row := {| ps_signature := txSignature tx; ps_wallet_address := walletAddress |}).
  assert (Hmark : ∀ w1,
    processed_signatures (snd (markSignatureProcessed (txSignature tx) walletAddress w1))
      = processed_signatures w1
    ∨ processed_signatures (snd (markSignatureProcessed (txSignature tx) walletAddress w1))
      = processed_signatures w1 ++ [row]).
  { intros w1. unfold markSignatureProcessed.
    destruct (existsb _ _); [left | right]; reflexivity. }
  assert (Hret : ∀ w1,
    processed_signatures (snd ((mret tt : Async unit) w1)) = processed_signatures w1
    ∨ processed_signatures (snd ((mret tt : Async unit) w1))
      = processed_signatures w1 ++ [row]) by (intros w1; left; reflexivity).
  unfold handleTransaction. apply ledger_step_bind.
  { intros w. rewrite isSignatureProcessed_world. reflexivity. }
  intros [|] w1; [apply Hret|]. revert w1. apply ledger_step_bind.
  { intros w.
    destruct (parseSwapTransaction_world cfg axios_get tx walletAddress w)
      as [-> | (mintAddress & ->)]; [reflexivity|].
    destruct (getTokenCreationTime_world axios_get mintAddress w) as (cache & -> & _).
    reflexivity. }
  intros [parsed|] w1; [|apply Hmark]. revert w1.
  destruct (parsedType parsed).
  - apply ledger_step_bind.
    { intros w. unfold recordBuyTransaction. destruct (existsb _ _); reflexivity. }
    intros _. apply ledger_step_bind; [|intros _; exact Hmark].
    destruct (shouldNotifyBuy _ _); [intros w; reflexivity | apply preserves_ret].
  - apply ledger_step_bind; [intros w; reflexivity|].
    intros [position|] w1; [|apply Hmark]. revert w1.
    apply ledger_step_bind.
    { intros w. rewrite recordSellTransaction_eq. destruct (latestBuy _); reflexivity. }
    intros _. apply ledger_step_bind; [intros w; reflexivity | intros _; exact Hmark].
Qed.

Lemma parseSwapTransaction_frame (cfg : Config)
    (axios_get : string → option (list HeliusTransaction))
    (tx : HeliusTransaction) (walletAddress : string) (w : World) :
  ∃ cache,
    snd (parseSwapTransaction cfg axios_get tx walletAddress w) = setTokenAgeCache cache w.
Proof.
  destruct (parseSwapTransaction_world cfg axios_get tx walletAddress w)
    as [-> | (mintAddress & ->)].
  - exists (tokenAgeCache w). destruct w; reflexivity.
  - destruct (getTokenCreationTime_world axios_get mintAddress w) as (cache & -> & _).
    exists cache. reflexivity.
Qed.

Lemma parseSwapTransaction_result (cfg : Config)
    (axios_get : string → option (list HeliusTransaction))
    (tx : HeliusTransaction) (walletAddress : string) (w : World)
    (parsed : ParsedTokenTransfer) :
  fst (parseSwapTransaction cfg axios_get tx walletAddress w) = Normal (Some parsed) →
  ∃ isBuy transfer, parsed = parsedFrom tx walletAddress isBuy transfer.
Proof.
  intros Hresult.
  assert (Hswap : String.eqb (txType tx) "SWAP" = true).
  { destruct (String.eqb (txType tx) "SWAP") eqn:E; [reflexivity|].
    unfold parseSwapTransaction in Hresult. rewrite E in Hresult. discriminate. }
  assert (Herror : transactionError tx = None).
  { destruct (transactionError tx) as [e|] eqn:E; [|reflexivity].
    unfold parseSwapTransaction in Hresult. rewrite Hswap, E in Hresult. discriminate. }
  rewrite (parseSwapTransaction_eq _ _ _ _ _ Hswap Herror) in Hresult.
  destruct (findTokenTransfer (tokenTransfers tx) walletAddress)
    as [[isBuy transfer]|]; [|discriminate].
  exists isBuy, transfer.
  destruct isBuy; [|injection Hresult as <-; reflexivity].
  destruct (getTokenCreationTime axios_get (mint transfer) w) as [[answer|e] w'];
    [|discriminate].
  destruct (knownCreationTime answer); [destruct (olderThanMaximum _ _ _)|];
    first [discriminate | injection Hresult as <-; reflexivity].
Qed.

Lemma isSignatureProcessed_absent (signature : string) (w : World) :
  ¬ In signature (map ps_signature (processed_signatures w)) →
  isSignatureProcessed signature w = (Normal false, w).
Proof.
  intros Habsent. unfold isSignatureProcessed.
  rewrite (filter_signature_absent _ _ Habsent). reflexivity.
Qed.

Lemma existsb_absent {A : Type} (key : A → string) (wanted : string) (rows : list A) :
  ¬ In wanted (map key rows) →
  existsb (λ row, String.eqb (key row) wanted) rows = false.
Proof.
  induction rows as [|row rest IH]; simpl; intros Habsent; [reflexivity|].
  rewrite IH by (intros H; apply Habsent; right; exact H).
  assert (E : String.eqb (key row) wanted = false)
    by (apply String.eqb_neq; intros H; apply Habsent; left; exact H).
  rewrite E. reflexivity.
Qed.

(** X23.  A buy below the threshold.  For a transaction that the ledger
    does not hold and that the classifier returns as a buy whose value does
    not reach the threshold, with a signature that opens no position yet,
    the loop body returns normally: it appends one open row with the
    wallet, the mint, the signature and the instant of the buy, marks the
    signature processed, and sends nothing.  The position is recorded
    although the buy is not announced. *)
Theorem buy_below_threshold_is_recorded_unannounced (cfg : Config)
    (axios_get : string → option (list HeliusTransaction))
    (tx : HeliusTransaction) (walletAddress : string) (walletLabel : option string)
    (w : World) (parsed : ParsedTokenTransfer) :
  ¬ In (txSignature tx) (map ps_signature (processed_signatures w)) →
  ¬ In (txSignature tx) (map buy_signature (positions w)) →
  fst (parseSwapTransaction cfg axios_get tx walletAddress w) = Normal (Some parsed) →
  parsedType parsed = buy →
  shouldNotifyBuy cfg (parsedValueUsd parsed) = false →
  let w' := snd (handleTransaction cfg axios_get tx walletAddress walletLabel w) in
  fst (handleTransaction cfg axios_get tx walletAddress walletLabel w) = Normal tt
  ∧ (∃ row,
       positions w' = positions w ++ [row]
       ∧ is_open row = true
       ∧ wallet_address row = walletAddress
       ∧ token_mint row = parsedTokenMint parsed
       ∧ buy_signature row = txSignature tx
       ∧ buy_timestamp row = txTimestamp tx * 1000)
  ∧ processed_signatures w'
    = processed_signatures w
      ++ [{| ps_signature := txSignature tx; ps_wallet_address := walletAddress |}]
  ∧ sent w' = sent w.
Proof.
  intros Hledger Hfresh Hparsed Hbuy Hquiet w'. subst w'.
  destruct (parseSwapTransaction_result _ _ _ _ _ _ Hparsed) as (isBuy & transfer & Hshape).
  assert (Hsig : parsedSignature parsed = txSignature tx) by (subst parsed; reflexivity).
  assert (Hts : parsedTimestamp parsed = txTimestamp tx) by (subst parsed; reflexivity).
  clear Hshape.
  destruct (parseSwapTransaction_frame cfg axios_get tx walletAddress w) as (cache & Hframe).
  unfold handleTransaction, mbind, Async_bind.
  rewrite (isSignatureProcessed_absent _ _ Hledger).
  destruct (parseSwapTransaction cfg axios_get tx walletAddress w) as [result w1].
  simpl in Hparsed, Hframe. subst result w1. rewrite Hbuy.
  rewrite recordBuyTransaction_eq. cbn [positions setTokenAgeCache buySignature].
  pose proof (existsb_absent buy_signature _ _ Hfresh) as Hnew.
  pose proof (existsb_absent ps_signature _ _ Hledger) as Hunmarked.
  rewrite Hsig, Hnew, Hquiet. unfold markSignatureProcessed. simpl.
  rewrite Hunmarked. simpl.
  split; [reflexivity|]. split; [|split; reflexivity].
  eexists. split; [reflexivity|]. simpl. rewrite Hts. repeat split.
Qed.

Lemma buy_below_threshold_is_recorded_unannounced_witness :
  map buy_signature
    (positions (snd (handleTransaction defaultConfig lookupFails buyWithUsdc whale None
                       emptyWorld)))
  = ["S1"]
  ∧ sent (snd (handleTransaction defaultConfig lookupFails buyWithUsdc whale None
                 emptyWorld)) = [].
Proof.
  destruct (buy_below_threshold_is_recorded_unannounced defaultConfig lookupFails
              buyWithUsdc whale None emptyWorld
              (parsedFrom buyWithUsdc whale true
                 {| fromUserAccount := Some pool; toUserAccount := Some whale;
                    mint := bonk; tokenAmount := 1000000 |}))
    as (_ & (row & Hrows & _ & _ & _ & Hsig & _) & _ & Hsent).
  - intros [].
  - intros [].
  - vm_compute. reflexivity.
  - reflexivity.
  - reflexivity.
  - split.
    + rewrite Hrows. simpl. rewrite Hsig. reflexivity.
    + exact Hsent.
Defined.

(** X24.  A sell without a matching buy.  For a transaction that the
    ledger does not hold and that the classifier returns as a sell of a
    pair with no open row, the loop body returns normally, writes no
    position and sends nothing, and still marks the signature processed,
    so that the transaction is not looked at again. *)
Theorem handleTransaction_sell_without_position (cfg : Config)
    (axios_get : string → option (list HeliusTransaction))
    (tx : HeliusTransaction) (walletAddress : string) (walletLabel : option string)
    (w : World) (parsed : ParsedTokenTransfer) :
  ¬ In (txSignature tx) (map ps_signature (processed_signatures w)) →
  fst (parseSwapTransaction cfg axios_get tx walletAddress w) = Normal (Some parsed) →
  parsedType parsed = sell →
  countOpen walletAddress (parsedTokenMint parsed) w = 0%nat →
  let w' := snd (handleTransaction cfg axios_get tx walletAddress walletLabel w) in
  fst (handleTransaction cfg axios_get tx walletAddress walletLabel w) = Normal tt
  ∧ positions w' = positions w
  ∧ sent w' = sent w
  ∧ processed_signatures w'
    = processed_signatures w
      ++ [{| ps_signature := txSignature tx; ps_wallet_address := walletAddress |}].
Proof.
  intros Hledger Hparsed Hsell Hnone w'. subst w'.
  destruct (parseSwapTransaction_frame cfg axios_get tx walletAddress w) as (cache & Hframe).
  unfold handleTransaction, mbind, Async_bind.
  rewrite (isSignatureProcessed_absent _ _ Hledger).
  destruct (parseSwapTransaction cfg axios_get tx walletAddress w) as [result w1].
  simpl in Hparsed, Hframe. subst result w1. rewrite Hsell.
  unfold getOpenPosition. cbn [positions setTokenAgeCache].
  unfold countOpen in Hnone. apply nil_length_inv in Hnone. rewrite Hnone.
  cbn [latestBuy]. unfold markSignatureProcessed.
  pose proof (existsb_absent ps_signature _ _ Hledger) as Hunmarked.
  cbn [processed_signatures setTokenAgeCache]. rewrite Hunmarked.
  repeat split.
Qed.

Lemma handleTransaction_sell_without_position_witness :
  positions (snd (handleTransaction defaultConfig lookupFails sellWithUsdc whale None
                    emptyWorld)) = []
  ∧ map ps_signature
      (processed_signatures
         (snd (handleTransaction defaultConfig lookupFails sellWithUsdc whale None
                 emptyWorld)))
    = ["S8"].
Proof.
  destruct (handleTransaction_sell_without_position defaultConfig lookupFails
              sellWithUsdc whale None emptyWorld
              (parsedFrom sellWithUsdc whale false
                 {| fromUserAccount := Some whale; toUserAccount := Some pool;
                    mint := bonk; tokenAmount := 1000000 |}))
    as (_ & Hrows & _ & Hledger).
  - intros [].
  - vm_compute. reflexivity.
  - reflexivity.
  - reflexivity.
  - split; [exact Hrows|]. rewrite Hledger. reflexivity.
Defined.



Lemma sameAccount_case (account : option string) (first second : string) :
  toLowerCase first = toLowerCase second →
  sameAccount account first = sameAccount account second.
Proof.
  intros Hcase. unfold sameAccount. rewrite Hcase. reflexivity.
Qed.

Lemma findTokenTransfer_case (tokenTransfers : list HeliusTokenTransfer)
    (first second : string) :
  toLowerCase first = toLowerCase second →
  findTokenTransfer tokenTransfers first = findTokenTransfer tokenTransfers second.
Proof.
  intros Hcase. induction tokenTransfers as [|transfer rest IH]; simpl; [reflexivity|].
  rewrite IH, !(sameAccount_case _ first second Hcase). reflexivity.
Qed.

Lemma calculateUSDValue_case (tokenTransfers : list HeliusTokenTransfer)
    (nativeTransfers : list HeliusNativeTransfer) (first second : string) (isBuy : bool) :
  toLowerCase first = toLowerCase second →
  calculateUSDValue tokenTransfers nativeTransfers first isBuy
  = calculateUSDValue tokenTransfers nativeTransfers second isBuy.
Proof.
  intros Hcase. unfold calculateUSDValue.
  assert (Hstable : stablecoinValue tokenTransfers first isBuy
                    = stablecoinValue tokenTransfers second isBuy).
  { induction tokenTransfers as [|transfer rest IH]; simpl; [reflexivity|].
    rewrite IH, !(sameAccount_case _ first second Hcase). reflexivity. }
  assert (Hnative : nativeValue nativeTransfers first isBuy
                    = nativeValue nativeTransfers second isBuy).
  { induction nativeTransfers as [|transfer rest IH]; simpl; [reflexivity|].
    rewrite IH, !(sameAccount_case _ first second Hcase). reflexivity. }
  rewrite Hstable, Hnative. reflexivity.
Qed.

(** X26.  The classifier does not tell apart two wallet addresses that
    differ only in the case of their letters: for such addresses
    [parseSwapTransaction] gives the same result and the same world on
    every transaction. *)
Theorem parseSwapTransaction_ignores_case (cfg : Config)
    (axios_get : string → option (list HeliusTransaction))
    (tx : HeliusTransaction) (first second : string) (w : World) :
  toLowerCase first = toLowerCase second →
  parseSwapTransaction cfg axios_get tx first w
  = parseSwapTransaction cfg axios_get tx second w.
Proof.
  intros Hcase. unfold parseSwapTransaction.
  rewrite (findTokenTransfer_case _ first second Hcase).
  destruct (negb _); [reflexivity|]. destruct (bool_decide _); [reflexivity|].
  destruct (findTokenTransfer (tokenTransfers tx) second) as [[isBuy transfer]|];
    [|reflexivity].
  rewrite (calculateUSDValue_case _ _ first second isBuy Hcase). reflexivity.
Qed.

Lemma parseSwapTransaction_ignores_case_witness :
  parseSwapTransaction defaultConfig lookupFails swapToOtherWallet whale emptyWorld
  = parseSwapTransaction defaultConfig lookupFails swapToOtherWallet otherWallet emptyWorld.
Proof.
  apply (parseSwapTransaction_ignores_case defaultConfig lookupFails swapToOtherWallet
           whale otherWallet emptyWorld).
  reflexivity.
Defined.
